(** * python_chess_interface: the UCI front end ([chess_interface/main.py])

    A shallow embedding of the [UCI] class and of the search-task contract
    it supervises, with the properties of the command processor proved
    against it.

    Conventions of the embedding.
    - Python [str] values are [string]s (ASCII text); [list]s of tokens are
      Rocq lists; Python [int]s are [Z].
    - [queue.Queue] objects are FIFO lists: [put] appends at the tail,
      [get] removes the head.
    - Mutation of [self] is explicit state passing in a small state and
      exception monad.  A raised exception keeps the state reached so far,
      exactly as an uncaught Python exception leaves [self] as mutated.
    - The worker thread started by [go] runs concurrently with the command
      reader.  Its interleaving is made explicit: a thread advances by
      [Tick] events between commands and inside the two blocking waits of
      the reader ([Thread.join] and the [sleep] loop of [stop]).  The
      straight-line code between those points is taken as atomic; this is
      faithful because the reader and the worker communicate only through
      the two queues, the worker only takes from the control queue and only
      appends to the result queue.
    - The blocking waits take a [fuel] bound (number of polls); running out
      of fuel is the outcome [Hang] and stands for a wait still in
      progress. *)

From Stdlib Require Import ZArith Lia Bool Ascii String.
From stdpp Require Import base tactics option list.

Local Open Scope string_scope.
Local Open Scope Z_scope.

(** ** Python string primitives used by [process_command] *)

Module Py.

(** [s.startswith(p)] *)
Definition startswith (s p : string) : bool := String.prefix p s.

(** [s.split(" ")]: cuts at every single space, so consecutive spaces
    give empty tokens and the empty string gives one empty token. *)
Fixpoint split (s : string) : list string :=
  match s with
  | EmptyString => [EmptyString]
  | String c s' =>
      if Ascii.eqb c " "%char then EmptyString :: split s'
      else match split s' with
           | [] => [String c EmptyString]
           | w :: ws => String c w :: ws
           end
  end.

(** [" ".join(l)] *)
Definition join (l : list string) : string := String.concat " " l.

(** [l[a:b]] for [0 <= a <= b] *)
Definition slice {A} (l : list A) (a b : nat) : list A :=
  take (b - a) (drop a l).

(** White space for [str.strip()]. *)
Definition is_space (c : ascii) : bool :=
  let n := nat_of_ascii c in
  ((9 <=? n)%nat && (n <=? 13)%nat) || ((28 <=? n)%nat && (n <=? 32)%nat).

Definition digit_of (c : ascii) : option Z :=
  let n := Z.of_nat (nat_of_ascii c) in
  if (48 <=? n) && (n <=? 57) then Some (n - 48) else None.

Fixpoint lstrip (s : string) : string :=
  match s with
  | String c s' => if is_space c then lstrip s' else s
  | EmptyString => EmptyString
  end.

(** [s.strip()] *)
Fixpoint rstrip (s : string) : string :=
  match s with
  | String c s' =>
      match rstrip s' with
      | EmptyString => if is_space c then EmptyString else String c EmptyString
      | r => String c r
      end
  | EmptyString => EmptyString
  end.

Definition strip (s : string) : string := rstrip (lstrip s).

(** White space for [int()], which skips less than [strip()]: tab, line
    feed, vertical tab, form feed, carriage return and space.  The
    separators 28 to 31 are no white space here. *)
Definition is_int_space (c : ascii) : bool :=
  let n := nat_of_ascii c in
  ((9 <=? n)%nat && (n <=? 13)%nat) || (n =? 32)%nat.

Fixpoint int_lstrip (s : string) : string :=
  match s with
  | String c s' => if is_int_space c then int_lstrip s' else s
  | EmptyString => EmptyString
  end.

(** Reads the digits of a decimal literal; a single underscore is
    allowed between two digits.  [acc] is the value read so far and
    [after_digit] says whether the previous character was a digit.
    Trailing white space ends the literal. *)
Fixpoint digits (s : string) (acc : Z) (after_digit : bool) : option Z :=
  match s with
  | EmptyString => if after_digit then Some acc else None
  | String c s' =>
      match digit_of c with
      | Some d => digits s' (10 * acc + d) true
      | None =>
          if Ascii.eqb c "_"%char then
            if after_digit then
              match s' with
              | String c' _ =>
                  match digit_of c' with
                  | Some _ => digits s' acc false
                  | None => None
                  end
              | EmptyString => None
              end
            else None
          else if is_int_space c then
            if after_digit then
              match int_lstrip s' with EmptyString => Some acc | _ => None end
            else None
          else None
      end
  end.

(** The number of decimal digits in [s]. *)
Fixpoint count_digits (s : string) : Z :=
  match s with
  | EmptyString => 0
  | String c s' =>
      match digit_of c with
      | Some _ => 1 + count_digits s'
      | None => count_digits s'
      end
  end.

(** [sys.int_info.default_max_str_digits]: a literal with more digits is
    refused. *)
Definition max_str_digits : Z := 4300.

(** [int(s)] on ASCII text: [None] stands for [ValueError]. *)
Definition int (s : string) : option Z :=
  if max_str_digits <? count_digits s then None
  else
    match int_lstrip s with
    | String "+" s' => digits s' 0 false
    | String "-" s' => Z.opp <$> digits s' 0 false
    | s' => digits s' 0 false
    end.

End Py.

(** ** Values, exceptions and the two external collaborators *)

(** Objects a search task may put on the result queue.  [process_command]
    only distinguishes [str], [list]/[tuple] and everything else. *)
#[warnings="-register-all"] Inductive pyval : Type :=
| PStr (s : string)
| PSeq (items : list pyval)
| PObj.

Inductive pyexc : Type :=
| IndexError | ValueError | TypeError | AttributeError | SystemExit
| ChessError.   (* whatever the [chess] module raises *)

(** How a call on the reader's side ends: it returns, it raises, or it is
    still blocked when the fuel runs out. *)
Inductive outcome (A : Type) : Type :=
| Done (a : A)
| Raise (e : pyexc)
| Hang.
Arguments Done {A} a.
Arguments Raise {A} e.
Arguments Hang {A}.

(** The part of the [chess] module that the front end and the example
    engine call.  [None] stands for a raised exception. *)
Class Chess := {
  Board : Type;
  Move : Type;
  new_board : Board;                         (* chess.Board() *)
  board_of_fen : string -> option Board;     (* chess.Board(fen), board.set_fen(fen) *)
  from_uci : string -> option Move;          (* chess.Move.from_uci(token) *)
  push : Board -> Move -> option Board;      (* board.push(move) *)
  fen : Board -> string;                     (* board.fen() *)
  legal_moves : Board -> list Move;          (* list(board.legal_moves) *)
  move_str : Move -> string                  (* str(move) *)
}.

(** One atomic step of a running search function, seen from the queues. *)
Inductive action (F : Type) : Type :=
| Poll (k : option pyval -> F)   (* non-blocking read of the control queue *)
| Put (v : pyval) (f : F)        (* result queue .put(v) *)
| Tau (f : F)                    (* local computation, time passing *)
| Return.                        (* the function returns or raises *)
Arguments Poll {F} k.
Arguments Put {F} v f.
Arguments Tau {F} f.
Arguments Return {F}.

(** The [move_search] callable given to [UCI.__init__]: called with the
    position, the time limit and the maximum depth (the two queues are the
    ones of the [UCI] object), it runs step by step. *)
Class SearchTask := {
  frame : Type;
  move_search : string -> Z -> Z -> frame;
  resume : frame -> action frame
}.

(** ** The [UCI] object and the world around it *)

Record UCI : Type := mkUCI {
  best_move : option pyval;
  position : string;
  time_limit : Z;
  send_queue : list pyval;
  recv_queue : list pyval;
  max_depth : Z;
  author : string;
  engine_name : string;
  move_thread : option nat
}.

(** [UCI.__init__] *)
Definition UCI_init (author engine_name : string) : UCI :=
  {| best_move := None; position := "startpos"; time_limit := 0;
     send_queue := []; recv_queue := []; max_depth := 0;
     author := author; engine_name := engine_name; move_thread := None |}.

Definition default_author : string := "(UCI Implementation) Jacob MacMillan Software Inc.".
Definition default_engine_name : string := "UCI Chess Engine".

Definition with_best_move (v : option pyval) (u : UCI) : UCI :=
  mkUCI v (position u) (time_limit u) (send_queue u) (recv_queue u)
        (max_depth u) (author u) (engine_name u) (move_thread u).
Definition with_position (p : string) (u : UCI) : UCI :=
  mkUCI (best_move u) p (time_limit u) (send_queue u) (recv_queue u)
        (max_depth u) (author u) (engine_name u) (move_thread u).
Definition with_send_queue (q : list pyval) (u : UCI) : UCI :=
  mkUCI (best_move u) (position u) (time_limit u) q (recv_queue u)
        (max_depth u) (author u) (engine_name u) (move_thread u).
Definition with_recv_queue (q : list pyval) (u : UCI) : UCI :=
  mkUCI (best_move u) (position u) (time_limit u) (send_queue u) q
        (max_depth u) (author u) (engine_name u) (move_thread u).
Definition with_move_thread (t : option nat) (u : UCI) : UCI :=
  mkUCI (best_move u) (position u) (time_limit u) (send_queue u) (recv_queue u)
        (max_depth u) (author u) (engine_name u) t.

Section Model.
Context {chess : Chess} {task : SearchTask}.

(** A [threading.Thread] that has been started: the arguments of its
    call and its frame, [None] once the call is over ([is_alive()] is
    then false). *)
Record thread : Type := mkThread {
  t_position : string;
  t_time_limit : Z;
  t_max_depth : Z;
  t_frame : option frame
}.

(** The [UCI] object, every thread started so far (a thread is named by
    its index) and the lines printed on standard output. *)
Record world : Type := mkWorld {
  self : UCI;
  threads : list thread;
  stdout : list string
}.

Definition on_self (f : UCI -> UCI) (w : world) : world :=
  mkWorld (f (self w)) (threads w) (stdout w).

Definition boot (author engine_name : string) : world :=
  mkWorld (UCI_init author engine_name) [] [].

(** *** Threads *)

Definition running (th : thread) : bool :=
  match t_frame th with Some _ => true | None => false end.

(** [threads[t].is_alive()] *)
Definition is_alive (w : world) (t : nat) : bool :=
  match threads w !! t with Some th => running th | None => false end.

Definition alive_count (w : world) : nat :=
  length (List.filter running (threads w)).

Definition set_frame (t : nat) (f : option frame) (w : world) : world :=
  match threads w !! t with
  | Some th =>
      mkWorld (self w)
        (<[t := mkThread (t_position th) (t_time_limit th) (t_max_depth th) f]> (threads w))
        (stdout w)
  | None => w
  end.

(** Thread [t] takes one step, if it is running. *)
Definition step_thread (t : nat) (w : world) : world :=
  match threads w !! t with
  | Some th =>
      match t_frame th with
      | Some f =>
          match resume f with
          | Poll k =>
              match send_queue (self w) with
              | [] => set_frame t (Some (k None)) w
              | m :: q =>
                  set_frame t (Some (k (Some m))) (on_self (with_send_queue q) w)
              end
          | Put v f' =>
              set_frame t (Some f')
                (on_self (with_recv_queue (recv_queue (self w) ++ [v])) w)
          | Tau f' => set_frame t (Some f') w
          | Return => set_frame t None w
          end
      | None => w
      end
  | None => w
  end.

(** The reader yields the processor ([time.sleep], or a blocked
    [join]): every running thread takes a step. *)
Definition yield (w : world) : world :=
  foldl (fun w t => step_thread t w) w (seq 0 (length (threads w))).

(** *** The state and exception monad of the reader *)

Definition M (A : Type) : Type := world -> outcome A * world.

Definition ret {A} (a : A) : M A := fun w => (Done a, w).
Definition raise {A} (e : pyexc) : M A := fun w => (Raise e, w).
Definition bind {A B} (c : M A) (k : A -> M B) : M B :=
  fun w =>
    match c w with
    | (Done a, w') => k a w'
    | (Raise e, w') => (Raise e, w')
    | (Hang, w') => (Hang, w')
    end.

Declare Scope reader_scope.
Delimit Scope reader_scope with reader.
Bind Scope reader_scope with M.
Notation "x <- c ;; k" := (bind c (fun x => k))
  (at level 100, c at next level, k at level 200, right associativity) : reader_scope.
Notation "c ;; k" := (bind c (fun _ => k))
  (at level 100, k at level 200, right associativity) : reader_scope.
Local Open Scope reader_scope.

Definition modify (f : UCI -> UCI) : M unit :=
  fun w => (Done tt, on_self f w).
Definition attr {A} (f : UCI -> A) : M A :=
  fun w => (Done (f (self w)), w).

(** [l[i]], raising [IndexError] out of range *)
Definition index {A} (l : list A) (i : nat) : M A :=
  match l !! i with Some a => ret a | None => raise IndexError end.

(** A call into the [chess] module *)
Definition chess_call {A} (r : option A) : M A :=
  match r with Some a => ret a | None => raise ChessError end.

(** [UCI.send]: [print(text, flush=True)] *)
Definition send (text : string) : M unit :=
  fun w => (Done tt, mkWorld (self w) (threads w) (stdout w ++ [text])).

(** [self.send_queue.put(v)] *)
Definition send_queue_put (v : pyval) : M unit :=
  modify (fun u => with_send_queue (send_queue u ++ [v]) u).

(** [self.recv_queue.get()]: blocks for ever on an empty queue that
    nobody fills; the callers test [empty()] first. *)
Definition recv_queue_get : M pyval :=
  fun w =>
    match recv_queue (self w) with
    | v :: q => (Done v, on_self (with_recv_queue q) w)
    | [] => (Hang, w)
    end.

(** [while not q.empty(): q.get()], run while no worker is being waited
    for: one element leaves the queue per iteration. *)
Fixpoint drain (q : list pyval) : list pyval :=
  match q with
  | [] => []
  | _ :: q' => drain q'
  end.

(** [thread.join()]: the reader is blocked until thread [t] is over; each
    unit of fuel lets the running threads take one step. *)
Fixpoint join (fuel : nat) (t : nat) (w : world) : outcome unit * world :=
  if is_alive w t then
    match fuel with
    | O => (Hang, w)
    | S fuel' => join fuel' t (yield w)
    end
  else (Done tt, w).

(** [while self.recv_queue.empty(): time.sleep(0.1)] *)
Fixpoint wait_result (fuel : nat) (w : world) : outcome unit * world :=
  match recv_queue (self w) with
  | _ :: _ => (Done tt, w)
  | [] =>
      match fuel with
      | O => (Hang, w)
      | S fuel' => wait_result fuel' (yield w)
      end
  end.

(** [threading.Thread(target=self.move_search, args=...)] stored in
    [self.move_thread], then [.start()]. *)
Definition start_thread (pos : string) (tl md : Z) : M unit :=
  fun w =>
    (Done tt,
     mkWorld (with_move_thread (Some (length (threads w))) (self w))
             (threads w ++ [mkThread pos tl md (Some (move_search pos tl md))])
             (stdout w)).

(** The [for i in range(9, len(args))] loop of [position]: [toks] is
    [args[9:]]. *)
Fixpoint push_all (b : Board) (toks : list string) : option Board :=
  match toks with
  | [] => Some b
  | tok :: toks' =>
      match from_uci tok with
      | Some m =>
          match push b m with
          | Some b' => push_all b' toks'
          | None => None
          end
      | None => None
      end
  end.

(** The [for i in range(1, len(args))] loop of [go]: [rest] is [args[i:]],
    so [args[i + 1]] is the head of its tail. *)
Fixpoint go_args (rest : list string) (tl md : Z) : pyexc + Z * Z :=
  match rest with
  | [] => inr (tl, md)
  | a :: rest' =>
      if String.eqb a "movetime" then
        match rest' with
        | [] => inl IndexError
        | n :: _ =>
            match Py.int n with
            | Some v => go_args rest' v md
            | None => inl ValueError
            end
        end
      else if String.eqb a "depth" then
        match rest' with
        | [] => inl IndexError
        | n :: _ =>
            match Py.int n with
            | Some v => go_args rest' tl v
            | None => inl ValueError
            end
        end
      else if String.eqb a "infinite" then go_args rest' 999999999 md
      else go_args rest' tl md
  end.

(** The limits a [go] line asks for: [args = command.split(" ")], both
    limits start at 0. *)
Definition go_limits (command : string) : pyexc + Z * Z :=
  go_args (drop 1 (Py.split command)) 0 0.

Definition as_str (v : pyval) : M string :=
  match v with PStr s => ret s | _ => raise TypeError end.

(** The output of the best move, shared by [stop] and [check_best_move]:
    [bestmove m] for a [str], [bestmove m ponder p] for a list or tuple,
    nothing for any other object. *)
Definition report (v : pyval) : M unit :=
  match v with
  | PStr s => send ("bestmove " ++ s)
  | PSeq items =>
      x0 <- index items 0 ;;
      m <- as_str x0 ;;
      x1 <- index items 1 ;;
      p <- as_str x1 ;;
      send ("bestmove " ++ m ++ " ponder " ++ p)
  | PObj => ret tt
  end.

Definition token_is (args : list string) (i : nat) (s : string) : bool :=
  match args !! i with Some a => String.eqb a s | None => false end.

(** The [position] branch of [process_command] (lines 95 to 112). *)
Definition position_branch (command : string) : M unit :=
  modify (with_position "startpos") ;;
  let args := Py.split command in
  let chess_board := new_board in
  a1 <- index args 1 ;;
  (if negb (String.eqb a1 "startpos") then
     if String.eqb a1 "fen" then
       modify (with_position (Py.join (Py.slice args 2 8)))
     else ret tt
   else ret tt) ;;
  pos <- attr position ;;
  chess_board <- chess_call (board_of_fen pos) ;;
  chess_board <-
    (if (8 <? length args)%nat && token_is args 8 "moves" then
       chess_call (push_all chess_board (drop 9 args))
     else ret chess_board) ;;
  modify (with_position (fen chess_board)).

(** Lines 115 to 118: a search that was started before is told to stop
    and joined, and the handle is cleared. *)
Definition stop_previous (fuel : nat) : M unit :=
  mt <- attr move_thread ;;
  match mt with
  | Some t =>
      send_queue_put (PStr "stop") ;;
      join fuel t ;;
      modify (with_move_thread None)
  | None => ret tt
  end.

(** Lines 119 to 122: both queues are emptied. *)
Definition clear_queues : M unit :=
  modify (fun u => with_send_queue (drain (send_queue u)) u) ;;
  modify (fun u => with_recv_queue (drain (recv_queue u)) u).

(** The [go] branch (lines 113 to 146). *)
Definition go_branch (fuel : nat) (command : string) : M unit :=
  stop_previous fuel ;;
  clear_queues ;;
  match go_limits command with
  | inl e => raise e
  | inr (time_limit, max_depth) =>
      pos <- attr position ;;
      start_thread pos time_limit max_depth
  end.

(** The [stop] branch (lines 148 to 163). *)
Definition stop_branch (fuel : nat) : M unit :=
  send_queue_put (PStr "stop") ;;
  wait_result fuel ;;
  v <- recv_queue_get ;;
  modify (with_best_move (Some v)) ;;
  mt <- attr move_thread ;;
  match mt with
  | Some t => join fuel t
  | None => raise AttributeError
  end ;;
  report v.

(** [UCI.process_command] *)
Definition process_command (fuel : nat) (command : string) : M unit :=
  if String.eqb command "uci" then
    name <- attr engine_name ;;
    send ("id name " ++ name) ;;
    auth <- attr author ;;
    send ("id author " ++ auth) ;;
    send "uciok"
  else if String.eqb command "isready" then
    send "readyok"
  else if Py.startswith command "position" then
    position_branch command
  else if Py.startswith command "go" then
    go_branch fuel command
  else if Py.startswith command "stop" then
    stop_branch fuel
  else if Py.startswith command "ucinewgame" then
    modify (with_position "startpos")
  else if Py.startswith command "setoption" then
    ret tt
  else if Py.startswith command "quit" then
    raise SystemExit
  else
    ret tt.

(** [UCI.read]: [line] is what [input()] gives. *)
Definition read (fuel : nat) (line : string) : M string :=
  let command := Py.strip line in
  process_command fuel command ;;
  ret command.

(** Lines 195 to 202 of [check_best_move]: take a result if one is there. *)
Definition take_result : M bool :=
  q <- attr recv_queue ;;
  match q with
  | _ :: _ =>
      v <- recv_queue_get ;;
      modify (with_best_move (Some v)) ;;
      report v ;;
      ret true
  | [] => ret false
  end.

(** [UCI.check_best_move] *)
Definition check_best_move (fuel : nat) : M bool :=
  mt <- attr move_thread ;;
  match mt with
  | Some t =>
      fun w =>
        if is_alive w t then ret false w
        else (join fuel t ;; modify (with_move_thread None) ;; take_result) w
  | None => take_result
  end.

(** *** Sessions: commands, polls and steps of the workers, in any order *)

Inductive event : Type :=
| Command (fuel : nat) (line : string)
| CheckBestMove (fuel : nat)
| Tick (t : nat).

Definition exec (w : world) (e : event) : world :=
  match e with
  | Command fuel line => snd (process_command fuel line w)
  | CheckBestMove fuel => snd (check_best_move fuel w)
  | Tick t => step_thread t w
  end.

Definition run (evs : list event) (w : world) : world := foldl exec w evs.

(** *** Notions used to state the properties *)

(** The world after [n] scheduling rounds with the reader blocked. *)
Fixpoint rounds (n : nat) (w : world) : world :=
  match n with
  | O => w
  | S n' => rounds n' (yield w)
  end.

(** Worlds that a session can be in: any sequence of commands, polls and
    worker steps after [UCI.__init__]. *)
Definition reachable (w : world) : Prop :=
  exists a e evs, w = run evs (boot a e).

(** Every running thread is the one [self.move_thread] names. *)
Definition owned (w : world) : Prop :=
  forall t, is_alive w t = true -> move_thread (self w) = Some t.

Definition no_worker (w : world) : Prop :=
  forall t, is_alive w t = false.

(** The world once the reader has put the cancellation token. *)
Definition cancelled (w : world) : world :=
  on_self (fun u => with_send_queue (send_queue u ++ [PStr "stop"]) u) w.

(** The protocol line for a delivered result: a move, or a move and a
    ponder move. *)
Definition bestmove_line (v : pyval) : option string :=
  match v with
  | PStr m => Some ("bestmove " ++ m)
  | PSeq (PStr m :: PStr p :: _) => Some ("bestmove " ++ m ++ " ponder " ++ p)
  | _ => None
  end.

(** The command shapes [process_command] tests for. *)
Definition recognized (line : string) : bool :=
  String.eqb line "uci" || String.eqb line "isready" ||
  existsb (Py.startswith line)
    ["position"; "go"; "stop"; "ucinewgame"; "setoption"; "quit"].

(** The thread a [go] line starts from position [pos]. *)
Definition fresh_thread (pos : string) (limits : Z * Z) : thread :=
  mkThread pos (fst limits) (snd limits) (Some (move_search pos (fst limits) (snd limits))).

(** What steps of the workers leave alone: [drift w w'] holds when [w']
    comes from [w] by worker steps only.  The fields of [self] other than
    the queues, the output and the number of threads are the same, no
    finished thread runs again, and the result queue only grows. *)
Record drift (w w' : world) : Prop := mkDrift {
  drift_best_move : best_move (self w') = best_move (self w);
  drift_position : position (self w') = position (self w);
  drift_move_thread : move_thread (self w') = move_thread (self w);
  drift_stdout : stdout w' = stdout w;
  drift_length : length (threads w') = length (threads w);
  drift_alive : forall t, is_alive w' t = true -> is_alive w t = true;
  drift_recv : exists more, recv_queue (self w') = (recv_queue (self w) ++ more)%list
}.

(** What every step of a session except the start of a thread and the
    clearing of the handle respects: the handle and the number of threads
    stay, and no finished thread runs again. *)
Record tame (w w' : world) : Prop := mkTame {
  tame_move_thread : move_thread (self w') = move_thread (self w);
  tame_length : length (threads w') = length (threads w);
  tame_alive : forall t, is_alive w' t = true -> is_alive w t = true
}.

(** Nothing is printed and the stored best move is not touched. *)
Definition silent (w w' : world) : Prop :=
  stdout w' = stdout w /\ best_move (self w') = best_move (self w).

(** A computation of the reader that keeps the relation [R], however it
    ends. *)
Definition preserves {A} (R : world -> world -> Prop) (c : M A) : Prop :=
  forall w, R w (snd (c w)).

(** Two worlds in which the workers see the same thing: the same threads
    and the same control queue. *)
Definition same_workers (w1 w2 : world) : Prop :=
  threads w1 = threads w2 /\ send_queue (self w1) = send_queue (self w2).

(** [w1] is [w2] after the reader has taken the results [pre] from the
    head of the result queue: the workers see no difference. *)
Definition behind (pre : list pyval) (w1 w2 : world) : Prop :=
  same_workers w1 w2 /\
  recv_queue (self w2) = (pre ++ recv_queue (self w1))%list.

End Model.

Arguments world {task}.
Arguments M {task} A.

(** ** The example engine ([example_engine.py])

    [move_search] of the example engine as a [SearchTask].  What the
    function reads from outside the program, the clock and the random
    generator, is a parameter of the embedding. *)

Module ExampleEngine.

(** The host of a run.  [seconds n] is the whole number of seconds since
    [start_time] that the [n]-th evaluation of the loop condition finds on
    the clock: [time_limit] is an [int], so [time.time() - start_time <
    time_limit] holds exactly when the integral part of the difference is
    below the limit.  [draw] is what the generator draws; [random.choice]
    reduces it to an index of the list.  Every thread of a run reads the
    same host. *)
Class Host := {
  seconds : nat -> Z;
  draw : nat
}.

Section Engine.
Context {chess : Chess} {host : Host}.

Inductive phase : Type :=
| Waiting (readings : nat)   (* in the [while] loop, the clock read so often *)
| Choosing                   (* after the loop *)
| Leaving.                   (* the result is on the queue *)

Record locals : Type := mkLocals {
  limit : Z;
  moves : list Move;
  at_phase : phase
}.

(** The body up to the loop: the board is parsed, the legal moves are
    listed.  If [set_fen] raises, the thread ends there. *)
Definition move_search (position : string) (time_limit max_depth : Z) : locals :=
  match (if String.eqb position "startpos" then Some new_board
         else board_of_fen position) with
  | Some board => mkLocals time_limit (legal_moves board) (Waiting 0)
  | None => mkLocals time_limit [] Leaving
  end.

(** [random.choice(legal_moves)] and the [put]: on the empty list
    [random.choice] raises and the thread ends without a result. *)
Definition choose (l : locals) : action locals :=
  match moves l !! (draw mod length (moves l))%nat with
  | Some move => Put (PStr (move_str move)) (mkLocals (limit l) (moves l) Leaving)
  | None => Return
  end.

Definition next (l : locals) : action locals :=
  match at_phase l with
  | Waiting readings =>
      if seconds readings <? limit l then
        Poll (fun command =>
                match command with
                | Some (PStr c) =>
                    if String.eqb c "stop" then mkLocals (limit l) (moves l) Choosing
                    else mkLocals (limit l) (moves l) (Waiting (S readings))
                | _ => mkLocals (limit l) (moves l) (Waiting (S readings))
                end)
      else choose l
  | Choosing => choose l
  | Leaving => Return
  end.

#[export] Instance engine : SearchTask :=
  Build_SearchTask locals move_search next.

End Engine.

(** A host whose clock shows one more second at every reading and whose
    generator draws 0. *)
#[export] Instance steady : Host := {| seconds := Z.of_nat; draw := 0 |}.

End ExampleEngine.

(** ** A stand-in for the [chess] module

    The rules library is not part of the repository.  Every general
    theorem below holds for any instance of [Chess]; the instance of this
    module only serves to run sessions of the example engine. *)

Module Stub.

Definition starting_fen : string :=
  "rnbqkbnr/pppppppp/8/8/8/8/PPPPPPPP/RNBQKBNR w KQkq - 0 1".

Definition is_file (c : ascii) : bool :=
  let n := nat_of_ascii c in (97 <=? n)%nat && (n <=? 104)%nat.
Definition is_rank (c : ascii) : bool :=
  let n := nat_of_ascii c in (49 <=? n)%nat && (n <=? 56)%nat.
Definition is_piece (c : ascii) : bool :=
  existsb (Ascii.eqb c) ["q"; "r"; "b"; "n"]%char.

Definition coordinate (tok : string) : bool :=
  match tok with
  | String f1 (String r1 (String f2 (String r2 rest))) =>
      is_file f1 && is_rank r1 && is_file f2 && is_rank r2 &&
      match rest with
      | EmptyString => true
      | String p EmptyString => is_piece p
      | _ => false
      end
  | _ => false
  end.

Definition six_fields (d : string) : bool :=
  let fs := Py.split d in
  (length fs =? 6)%nat && forallb (fun f => negb (String.eqb f "")) fs.

Definition describe (b : string * list string) : string :=
  match snd b with
  | [] => fst b
  | ms => fst b ++ " moves " ++ Py.join ms
  end.

(** Modelled from the spec: the [chess] module (the rules adapter), whose
    interface section 6 of the specification gives as newBoard,
    setFromDescriptor, applyMove (failing on a malformed token) and
    toDescriptor.  A board is a six-field descriptor together with the
    moves played on it; a move token is in coordinate form, two squares
    and an optional promotion piece. *)
#[export] Instance chess : Chess :=
  {| Board := string * list string;
     Move := string;
     new_board := (starting_fen, []);
     board_of_fen := fun d => if six_fields d then Some (d, []) else None;
     from_uci := fun tok => if coordinate tok then Some tok else None;
     push := fun b m => Some (fst b, (snd b ++ [m])%list);
     fen := describe;
     legal_moves := fun _ => ["e2e4"; "d2d4"];
     move_str := fun m => m |}.

End Stub.

(** The example engine on the stand-in rules and the steady host, as
    started by [uci.UCI(move_search)]. *)
Module Demo.
Import Stub ExampleEngine.

Definition start : world := boot default_author default_engine_name.

(** [go infinite], and the search has polled the control queue once. *)
Definition searching : world := run [Command 0 "go infinite"; Tick 0] start.

(** Three [go] commands, the first two searches superseded. *)
Definition restarted : world :=
  run [Command 0 "go infinite"; Tick 0; Command 3 "go infinite"; Tick 1;
       Command 3 "go depth 2"] start.

(** [go movetime 0], the thread has not run yet. *)
Definition started : world := run [Command 0 "go movetime 0"] start.

(** [go movetime 0], the search has put its move and has not returned yet. *)
Definition delivered : world := run [Command 0 "go movetime 0"; Tick 0] start.

(** [go movetime 0], the search has put its move and has returned. *)
Definition finished : world :=
  run [Command 0 "go movetime 0"; Tick 0; Tick 0] start.

(** [go movetime 0] and then [stop]. *)
Definition stopped : world :=
  run [Command 0 "go movetime 0"; Command 2 "stop"] start.

Definition fen_line : string :=
  "position fen rnbqkbnr/pppppppp/8/8/8/8/PPPPPPPP/RNBQKBNR w KQkq - 0 1".

(** A position has been set from a descriptor. *)
Definition placed : world := run [Command 0 fen_line] start.

(** The same descriptor followed by a move token that is not a move. *)
Definition bad_moves_line : string := fen_line ++ " moves zz99".

End Demo.

(** ** Notions for the properties of whole sessions *)

Section Observations.
Context {chess : Chess} {task : SearchTask}.

(** The world after [print(text, flush=True)]. *)
Definition printing (text : string) (w : world) : world :=
  mkWorld (self w) (threads w) (stdout w ++ [text])%list.

(** The lines of the protocol that an engine with the identity of [u]
    writes: the answers to [uci] and [isready], and a best move. *)
Definition protocol_line (u : UCI) (l : string) : bool :=
  String.eqb l ("id name " ++ engine_name u) ||
  String.eqb l ("id author " ++ author u) ||
  String.eqb l "uciok" || String.eqb l "readyok" ||
  Py.startswith l "bestmove ".

(** The control queue holds cancellation tokens and nothing else. *)
Definition only_stop (w : world) : Prop :=
  Forall (fun m => m = PStr "stop") (send_queue (self w)).

(** [self.move_thread], when set, is the thread started last. *)
Definition handle_last (w : world) : Prop :=
  forall t, move_thread (self w) = Some t -> S t = length (threads w).

(** From [w] to [w'] the identity of the engine and the two limit fields
    of [self] are the same, and the output has grown by protocol lines. *)
Record speaks (w w' : world) : Prop := mkSpeaks {
  speaks_author : author (self w') = author (self w);
  speaks_engine_name : engine_name (self w') = engine_name (self w);
  speaks_time_limit : time_limit (self w') = time_limit (self w);
  speaks_max_depth : max_depth (self w') = max_depth (self w);
  speaks_stdout :
    exists new, stdout w' = (stdout w ++ new)%list /\
                Forall (fun l => protocol_line (self w) l = true) new
}.

(** A property of worlds that a step does not destroy. *)
Definition keeps (I : world -> Prop) (w w' : world) : Prop := I w -> I w'.

Definition same_position (w w' : world) : Prop :=
  position (self w') = position (self w).

(** The output has grown by at most one line, a best move. *)
Definition at_most_one_line (w w' : world) : Prop :=
  stdout w' = stdout w \/
  exists l, stdout w' = (stdout w ++ [l])%list /\ Py.startswith l "bestmove " = true.

(** A relation that every elementary effect of the code respects: a step
    of a worker, each assignment to a field of [self], the start of a
    thread and each [print]. *)
Record effects (R : world -> world -> Prop) : Prop := mkEffects {
  e_refl : forall w, R w w;
  e_trans : forall w1 w2 w3, R w1 w2 -> R w2 w3 -> R w1 w3;
  e_step : forall t w, R w (step_thread t w);
  e_position : forall p w, R w (on_self (with_position p) w);
  e_cancel : forall w, R w (cancelled w);
  e_clear_send :
    forall w, R w (on_self (fun u => with_send_queue (drain (send_queue u)) u) w);
  e_clear_recv :
    forall w, R w (on_self (fun u => with_recv_queue (drain (recv_queue u)) u) w);
  e_pop :
    forall w v q, recv_queue (self w) = v :: q ->
                  R w (on_self (with_recv_queue q) w);
  e_best : forall v w, R w (on_self (with_best_move v) w);
  e_handle_none : forall w, R w (on_self (with_move_thread None) w);
  e_start : forall pos tl md w, R w (snd (start_thread pos tl md w));
  e_bestmove :
    forall text w, Py.startswith text "bestmove " = true -> R w (printing text w);
  e_id_name : forall w, R w (printing ("id name " ++ engine_name (self w)) w);
  e_id_author : forall w, R w (printing ("id author " ++ author (self w)) w);
  e_uciok : forall w, R w (printing "uciok" w);
  e_readyok : forall w, R w (printing "readyok" w)
}.

(** The three flags that the [go] loop knows. *)
Definition is_flag (tok : string) : bool :=
  String.eqb tok "movetime" || String.eqb tok "depth" || String.eqb tok "infinite".

(** A line of white space only. *)
Fixpoint blank (s : string) : bool :=
  match s with
  | EmptyString => true
  | String c s' => Py.is_space c && blank s'
  end.

(** *** The program of [example_engine.py]

    What arrives while the program runs.  [Line s ts]: the line [s] on
    standard input, and the steps [ts] that the threads take after
    [read()] has returned and before [check_best_move()] is called, while
    the log is written.  [Work t]: a step of thread [t] while the program
    waits in [input()]. *)
Inductive input : Type :=
| Line (s : string) (ts : list nat)
| Work (t : nat).

(** How the program ends: [input()] finds the end of the input and raises
    [EOFError], another exception leaves the loop ([SystemExit] for
    [quit]), or the program does not end: the main thread is blocked in a
    wait, or the interpreter waits at shutdown for a search thread. *)
Inductive ending : Type :=
| EndOfInput
| Ended (e : pyexc)
| Blocked.

Definition banner : string :=
  "Chess Interface Test Engine by Jacob MacMillan Software Inc.".

(** The [while True] loop: [interface.read()], the command appended to
    [log.txt], [interface.check_best_move()].  [log] holds the lines of
    the log file. *)
Fixpoint serve (fuel : nat) (ins : list input) (w : world) (log : list string)
  : ending * world * list string :=
  match ins with
  | [] => (EndOfInput, w, log)
  | Work t :: ins' => serve fuel ins' (step_thread t w) log
  | Line s ts :: ins' =>
      match read fuel s w with
      | (Done command, w1) =>
          let log1 := (log ++ [command])%list in
          match check_best_move fuel (run (map Tick ts) w1) with
          | (Done _, w2) => serve fuel ins' w2 log1
          | (Raise e, w2) => (Ended e, w2, log1)
          | (Hang, w2) => (Blocked, w2, log1)
          end
      | (Raise e, w1) => (Ended e, w1, log)
      | (Hang, w1) => (Blocked, w1, log)
      end
  end.

(** The end of the main thread is not the end of the process: the threads
    started by [go] are not daemons, and the interpreter joins them at
    shutdown.  Nothing tells them to stop. *)
Fixpoint shutdown (fuel : nat) (w : world) : outcome unit * world :=
  if existsb running (threads w) then
    match fuel with
    | O => (Hang, w)
    | S fuel' => shutdown fuel' (yield w)
    end
  else (Done tt, w).

(** What becomes of the program once the loop is over. *)
Definition finish (fuel : nat) (r : ending * world * list string)
  : ending * world * list string :=
  match r with
  | (Blocked, w, log) => (Blocked, w, log)
  | (e, w, log) =>
      match shutdown fuel w with
      | (Done _, w') => (e, w', log)
      | (_, w') => (Blocked, w', log)
      end
  end.

(** The program: the banner is printed, the interface is built with the
    default identity, the loop runs, and the interpreter shuts down. *)
Definition main (fuel : nat) (ins : list input) (log : list string)
  : ending * world * list string :=
  finish fuel
    (serve fuel ins (printing banner (boot default_author default_engine_name)) log).

(** The lines among the inputs. *)
Fixpoint lines_of (ins : list input) : list string :=
  match ins with
  | [] => []
  | Line s _ :: ins' => s :: lines_of ins'
  | Work _ :: ins' => lines_of ins'
  end.

End Observations.

(** ** Sessions of the example engine with one search

    The worlds that a new session goes through after a first [go]: one
    thread, started from the position [startpos] with the legal moves
    [mvs], in phase [ph] ([None] once it has returned). *)

Module EngineSession.
Section Shapes.
Context {chess : Chess} {host : ExampleEngine.Host}.

(** [self] in such a session: nothing reported yet, the handle on
    thread 0. *)
Definition interface (a e : string) (sq rq : list pyval) : UCI :=
  mkUCI None "startpos" 0 sq rq 0 a e (Some 0%nat).

Definition one_search (u : UCI) (lim : Z * Z) (mvs : list Move)
    (ph : option ExampleEngine.phase) : @world ExampleEngine.engine :=
  mkWorld u
    [mkThread (task := ExampleEngine.engine) "startpos" (fst lim) (snd lim)
       (option_map (ExampleEngine.mkLocals (fst lim) mvs) ph)]
    [].

(** The search is in its loop, with empty queues. *)
Definition in_loop (a e : string) (lim : Z * Z) (mvs : list Move) (readings : nat)
  : @world ExampleEngine.engine :=
  one_search (interface a e [] []) lim mvs (Some (ExampleEngine.Waiting readings)).

(** The search has put [res] and has not returned yet. *)
Definition leaving (a e : string) (lim : Z * Z) (mvs : list Move) (res : pyval)
  : @world ExampleEngine.engine :=
  one_search (interface a e [] [res]) lim mvs (Some ExampleEngine.Leaving).

(** The search has put [res] and has returned. *)
Definition returned (a e : string) (lim : Z * Z) (mvs : list Move) (res : pyval)
  : @world ExampleEngine.engine :=
  one_search (interface a e [] [res]) lim mvs None.

(** How many of the steps [ts] are steps of thread [t]. *)
Definition turns (t : nat) (ts : list nat) : nat := count_occ Nat.eq_dec ts t.

(** The three stages of the one search of such a session. *)
Definition search_state (a e : string) (lim : Z * Z) (mvs : list Move) (res : pyval)
    (w : @world ExampleEngine.engine) : Prop :=
  (exists readings, w = in_loop a e lim mvs readings) \/
  w = leaving a e lim mvs res \/
  w = returned a e lim mvs res.



End Shapes.
End EngineSession.

(** * Properties *)

Local Open Scope list_scope.

(** ** The string primitives *)

Example split_ex1 : Py.split "go movetime 500" = ["go"; "movetime"; "500"].
Proof. reflexivity. Qed.
Example split_ex2 : Py.split "a  b " = ["a"; ""; "b"; ""].
Proof. reflexivity. Qed.
Example split_ex3 : Py.split "" = [""].
Proof. reflexivity. Qed.
Example int_ex1 : Py.int "500" = Some 500.
Proof. reflexivity. Qed.
Example int_ex2 : Py.int " -1_000 " = Some (-1000).
Proof. reflexivity. Qed.
Example int_ex3 : Py.int "1__0" = None /\ Py.int "" = None /\ Py.int "e2e4" = None /\ Py.int "+" = None.
Proof. repeat split; reflexivity. Qed.
(** The separators that [strip()] removes are no white space for
    [int()]. *)
Example int_ex4 :
  Py.int (String (ascii_of_nat 31) "7") = None /\
  Py.int (String (ascii_of_nat 9) "7") = Some 7 /\
  Py.strip (String (ascii_of_nat 31) "7") = "7".
Proof. repeat split. Qed.
(** A literal of more than 4300 digits is refused. *)
Lemma int_digit_limit (s : string) :
  Py.max_str_digits < Py.count_digits s -> Py.int s = None.
Proof. intros H. unfold Py.int. apply Z.ltb_lt in H. now rewrite H. Qed.

Lemma split_not_nil (s : string) : Py.split s <> [].
Proof.
  induction s as [|c s IH]; simpl; [discriminate|].
  destruct (Ascii.eqb c " "); [discriminate|].
  destruct (Py.split s); [contradiction|discriminate].
Qed.

(** A word without a space is a single token. *)
Lemma split_word_cons (c : ascii) (a : string) :
  Py.split (String c a) = [String c a] ->
  Ascii.eqb c " " = false /\ Py.split a = [a].
Proof.
  simpl. destruct (Ascii.eqb c " ").
  - intros H. inversion H.
  - destruct (Py.split a) as [|x xs] eqn:E; [now apply split_not_nil in E|].
    intros [= -> ->]. auto.
Qed.

Lemma split_app_space (a s : string) :
  Py.split a = [a] ->
  Py.split (a ++ " " ++ s)%string = a :: Py.split s.
Proof.
  induction a as [|c a IH]; intros H; [reflexivity|].
  apply split_word_cons in H as [Hc Ha].
  specialize (IH Ha). simpl in *. rewrite Hc, IH. reflexivity.
Qed.

(** Splitting the join of space-free words gives the words back. *)
Lemma split_join (l : list string) :
  l <> [] ->
  Forall (fun m => Py.split m = [m]) l ->
  Py.split (Py.join l) = l.
Proof.
  induction l as [|a l IH]; intros Hne Hall; [contradiction|].
  apply Forall_cons in Hall as [Ha Hl].
  destruct l as [|b l]; [exact Ha|].
  change (Py.join (a :: b :: l)) with (a ++ " " ++ Py.join (b :: l))%string.
  rewrite (split_app_space _ _ Ha), IH; [reflexivity|discriminate|exact Hl].
Qed.

(** ** Dispatch of [process_command] *)

Lemma prefix_cons (a : ascii) (p s : string) :
  String.prefix (String a p) s = true ->
  exists s', s = String a s' /\ String.prefix p s' = true.
Proof.
  destruct s as [|b s']; simpl; [discriminate|].
  destruct (ascii_dec a b) as [->|]; [|discriminate].
  intros H. exists s'. split; [reflexivity|exact H].
Qed.

Lemma prefix_empty (s : string) : String.prefix "" s = true.
Proof. now destruct s. Qed.

Ltac peel H :=
  repeat (let s := fresh "s" in
          apply prefix_cons in H as (s & -> & H)).

Ltac dispatch H :=
  unfold Py.startswith in H; peel H;
  unfold process_command, Py.startswith;
  cbn [String.prefix String.eqb Ascii.eqb Bool.eqb ascii_dec ascii_rec ascii_rect
       bool_dec bool_rec bool_rect sumbool_rec sumbool_rect];
  rewrite ?prefix_empty; reflexivity.

Section Properties.
Context {chess : Chess} {task : SearchTask}.

Lemma process_command_position fuel line :
  Py.startswith line "position" = true ->
  process_command fuel line = position_branch line.
Proof. intros H. dispatch H. Qed.

Lemma process_command_go fuel line :
  Py.startswith line "go" = true ->
  process_command fuel line = go_branch fuel line.
Proof. intros H. dispatch H. Qed.

Lemma process_command_stop fuel line :
  Py.startswith line "stop" = true ->
  process_command fuel line = stop_branch fuel.
Proof. intros H. dispatch H. Qed.

(** ** Steps of the workers *)

Lemma drift_refl w : drift w w.
Proof. constructor; auto. exists []. now rewrite app_nil_r. Qed.

Lemma drift_trans w1 w2 w3 : drift w1 w2 -> drift w2 w3 -> drift w1 w3.
Proof.
  intros [] []. constructor; try congruence; auto.
  destruct drift_recv0 as [m1 E1], drift_recv1 as [m2 E2].
  exists (m1 ++ m2). now rewrite E2, E1, app_assoc.
Qed.

Lemma is_alive_set_frame t f w t' :
  is_alive (set_frame t f w) t' = true ->
  is_alive w t' = true \/ (t' = t /\ f <> None /\ t < length (threads w))%nat.
Proof.
  unfold set_frame, is_alive.
  destruct (threads w !! t) as [th|] eqn:E; simpl; [|auto].
  destruct (decide (t = t')) as [<-|Hne].
  - rewrite list_lookup_insert_eq by (eapply lookup_lt_Some; eauto).
    unfold running; simpl. destruct f; [|discriminate].
    intros _. right. repeat split; [discriminate|]. eapply lookup_lt_Some; eauto.
  - rewrite list_lookup_insert_ne by assumption. auto.
Qed.

Lemma set_frame_self t f w : self (set_frame t f w) = self w.
Proof. unfold set_frame. now destruct (threads w !! t). Qed.

Lemma set_frame_stdout t f w : stdout (set_frame t f w) = stdout w.
Proof. unfold set_frame. now destruct (threads w !! t). Qed.

Lemma set_frame_length t f w :
  length (threads (set_frame t f w)) = length (threads w).
Proof.
  unfold set_frame. destruct (threads w !! t); simpl; [|reflexivity].
  apply length_insert.
Qed.

Lemma step_thread_drift t w : drift w (step_thread t w).
Proof.
  unfold step_thread.
  destruct (threads w !! t) as [th|] eqn:E; [|apply drift_refl].
  destruct (t_frame th) as [f|] eqn:F; [|apply drift_refl].
  assert (Hrun : is_alive w t = true).
  { unfold is_alive, running. now rewrite E, F. }
  assert (Hgen : forall w2 fo,
             threads w2 = threads w -> stdout w2 = stdout w ->
             best_move (self w2) = best_move (self w) ->
             position (self w2) = position (self w) ->
             move_thread (self w2) = move_thread (self w) ->
             (exists more, recv_queue (self w2) = recv_queue (self w) ++ more) ->
             drift w (set_frame t fo w2)).
  { intros w2 fo Ht Ho H1 H2 H3 H4.
    constructor; rewrite ?set_frame_self, ?set_frame_stdout, ?set_frame_length; auto.
    - now rewrite Ht.
    - intros t' Ht'. apply is_alive_set_frame in Ht' as [Ht'|(-> & _ & _)]; auto.
      unfold is_alive in *. now rewrite <- Ht. }
  assert (Hnil : exists more, recv_queue (self w) = recv_queue (self w) ++ more).
  { exists []. now rewrite app_nil_r. }
  destruct (resume f) as [k|v f'|f'|]; auto.
  - destruct (send_queue (self w)) as [|m q]; auto.
  - apply Hgen; auto. simpl. eauto.
Qed.

Lemma foldl_drift ts w :
  drift w (foldl (fun w t => step_thread t w) w ts).
Proof.
  revert w. induction ts as [|t ts IH]; intros w; simpl.
  - apply drift_refl.
  - eapply drift_trans; [apply step_thread_drift|apply IH].
Qed.

Lemma yield_drift w : drift w (yield w).
Proof. apply foldl_drift. Qed.

Lemma rounds_drift n w : drift w (rounds n w).
Proof.
  revert w. induction n as [|n IH]; intros w; simpl.
  - apply drift_refl.
  - eapply drift_trans; [apply yield_drift|apply IH].
Qed.

Lemma rounds_add n m w : rounds (n + m) w = rounds m (rounds n w).
Proof. revert w. induction n as [|n IH]; intros w; simpl; auto. Qed.

(** ** The two blocking waits *)

(** A wait ends in the world reached after some number of rounds: either
    it is over, or the fuel is spent and the condition still fails. *)
Lemma join_rounds fuel t w :
  exists k, (k <= fuel)%nat /\ snd (join fuel t w) = rounds k w /\
    ((fst (join fuel t w) = Done tt /\ is_alive (rounds k w) t = false) \/
     (fst (join fuel t w) = Hang /\ k = fuel /\ is_alive (rounds k w) t = true)).
Proof.
  revert w. induction fuel as [|fuel IH]; intros w; simpl.
  - exists 0%nat. destruct (is_alive w t) eqn:E; simpl; intuition auto.
  - destruct (is_alive w t) eqn:E.
    + destruct (IH (yield w)) as (k & Hk & Hs & Ho).
      exists (S k). simpl. split; [lia|]. split; [exact Hs|].
      destruct Ho as [Ho|(Ho & -> & Ha)]; auto.
    + exists 0%nat. simpl. split; [lia|]. auto.
Qed.

Lemma wait_result_rounds fuel w :
  exists k, (k <= fuel)%nat /\ snd (wait_result fuel w) = rounds k w /\
    ((fst (wait_result fuel w) = Done tt /\ recv_queue (self (rounds k w)) <> []) \/
     (fst (wait_result fuel w) = Hang /\ k = fuel /\ recv_queue (self (rounds k w)) = [])).
Proof.
  revert w. induction fuel as [|fuel IH]; intros w; simpl.
  - exists 0%nat. destruct (recv_queue (self w)) eqn:E; simpl; rewrite ?E;
      intuition (auto; congruence).
  - destruct (recv_queue (self w)) eqn:E.
    + destruct (IH (yield w)) as (k & Hk & Hs & Ho).
      exists (S k). simpl. split; [lia|]. split; [exact Hs|].
      destruct Ho as [Ho|(Ho & -> & Ha)]; auto.
    + exists 0%nat. simpl. rewrite E. split; [lia|]. split; [reflexivity|].
      left. split; [reflexivity|congruence].
Qed.

Lemma join_drift fuel t w : drift w (snd (join fuel t w)).
Proof.
  destruct (join_rounds fuel t w) as (k & _ & -> & _). apply rounds_drift.
Qed.

Lemma wait_result_drift fuel w : drift w (snd (wait_result fuel w)).
Proof.
  destruct (wait_result_rounds fuel w) as (k & _ & -> & _). apply rounds_drift.
Qed.

Lemma join_done fuel t w :
  fst (join fuel t w) = Done tt -> is_alive (snd (join fuel t w)) t = false.
Proof.
  destruct (join_rounds fuel t w) as (k & _ & -> & [[_ H]|[-> _]]);
    [auto|discriminate].
Qed.

(** A finished thread is joined at once, whatever the fuel. *)
Lemma join_finished fuel t w :
  is_alive w t = false -> join fuel t w = (Done tt, w).
Proof. intros H. destruct fuel; simpl; now rewrite H. Qed.

Lemma rounds_alive_mono n m t w :
  (n <= m)%nat -> is_alive (rounds n w) t = false -> is_alive (rounds m w) t = false.
Proof.
  intros Hle Hn. replace m with (n + (m - n))%nat by lia.
  rewrite rounds_add.
  destruct (is_alive (rounds (m - n) (rounds n w)) t) eqn:E; [|reflexivity].
  apply (drift_alive _ _ (rounds_drift (m - n) (rounds n w))) in E. congruence.
Qed.

Lemma rounds_recv_mono n m w :
  (n <= m)%nat ->
  exists more, recv_queue (self (rounds m w)) = recv_queue (self (rounds n w)) ++ more.
Proof.
  intros Hle. replace m with (n + (m - n))%nat by lia.
  rewrite rounds_add. apply (drift_recv _ _ (rounds_drift (m - n) (rounds n w))).
Qed.

(** If the thread is over after [n] rounds, [n] units of fuel are enough
    to join it. *)
Lemma join_complete n fuel t w :
  is_alive (rounds n w) t = false -> (n <= fuel)%nat ->
  exists k, (k <= n)%nat /\ join fuel t w = (Done tt, rounds k w) /\
            is_alive (rounds k w) t = false.
Proof.
  revert fuel w. induction n as [|n IH]; intros fuel w Hn Hle; simpl in Hn.
  - exists 0%nat. rewrite join_finished by assumption. auto.
  - destruct (is_alive w t) eqn:E.
    + destruct fuel as [|fuel]; [lia|].
      destruct (IH fuel (yield w) Hn ltac:(lia)) as (k & Hk & Hj & Ha).
      exists (S k). simpl. rewrite E. split; [lia|]. auto.
    + exists 0%nat. rewrite join_finished by assumption. split; [lia|]. auto.
Qed.

(** If the result queue holds something after [n] rounds, [n] units of
    fuel are enough for the wait of [stop]. *)
Lemma wait_result_complete n fuel w :
  recv_queue (self (rounds n w)) <> [] -> (n <= fuel)%nat ->
  exists k, (k <= n)%nat /\ wait_result fuel w = (Done tt, rounds k w) /\
            recv_queue (self (rounds k w)) <> [].
Proof.
  revert fuel w. induction n as [|n IH]; intros fuel w Hn Hle; simpl in Hn.
  - exists 0%nat. simpl. split; [lia|]. split; [|exact Hn].
    destruct fuel; simpl; destruct (recv_queue (self w)); congruence.
  - destruct (recv_queue (self w)) eqn:E.
    + destruct fuel as [|fuel]; [lia|].
      destruct (IH fuel (yield w) Hn ltac:(lia)) as (k & Hk & Hj & Ha).
      exists (S k). simpl. rewrite E. split; [lia|]. auto.
    + exists 0%nat. simpl. split; [lia|]. split; [|congruence].
      destruct fuel; simpl; now rewrite E.
Qed.

(** ** Framing the reader's computations *)

Lemma preserves_bind {A B} (R : world -> world -> Prop) (c : M A) (k : A -> M B) :
  (forall w1 w2 w3, R w1 w2 -> R w2 w3 -> R w1 w3) ->
  preserves R c -> (forall a, preserves R (k a)) -> preserves R (bind c k).
Proof.
  intros Htrans Hc Hk w. unfold bind.
  specialize (Hc w). destruct (c w) as [[a|e|] w1]; simpl in *; auto.
  eapply Htrans; [exact Hc|apply Hk].
Qed.

Lemma tame_refl w : tame w w.
Proof. now constructor. Qed.

Lemma tame_trans w1 w2 w3 : tame w1 w2 -> tame w2 w3 -> tame w1 w3.
Proof. intros [] []. constructor; try congruence; auto. Qed.

Lemma drift_tame w w' : drift w w' -> tame w w'.
Proof. intros []. now constructor. Qed.

Lemma tame_same w w' :
  threads w' = threads w -> move_thread (self w') = move_thread (self w) ->
  tame w w'.
Proof.
  intros Ht Hm. constructor; auto; [now rewrite Ht|].
  intros t. unfold is_alive. now rewrite Ht.
Qed.

Lemma silent_trans w1 w2 w3 : silent w1 w2 -> silent w2 w3 -> silent w1 w3.
Proof. intros [] []. split; congruence. Qed.

Ltac frame_bind :=
  repeat (apply preserves_bind;
          [first [exact tame_trans|exact silent_trans]| |intros ?]).

Lemma tame_ret {A} (a : A) : preserves tame (ret a).
Proof. intros w. apply tame_refl. Qed.

Lemma tame_raise {A} e : preserves tame (@raise _ A e).
Proof. intros w. apply tame_refl. Qed.

Lemma tame_attr {A} (f : UCI -> A) : preserves tame (attr f).
Proof. intros w. apply tame_refl. Qed.

Lemma tame_index {A} (l : list A) i : preserves tame (index l i).
Proof. intros w. unfold index. destruct (l !! i); apply tame_refl. Qed.

Lemma tame_chess_call {A} (r : option A) : preserves tame (chess_call r).
Proof. intros w. destruct r; apply tame_refl. Qed.

Lemma tame_send text : preserves tame (send text).
Proof. intros w. now apply tame_same. Qed.

Lemma tame_modify f :
  (forall u, move_thread (f u) = move_thread u) -> preserves tame (modify f).
Proof. intros Hf w. apply tame_same; simpl; auto. Qed.

Lemma tame_recv_queue_get : preserves tame recv_queue_get.
Proof.
  intros w. unfold recv_queue_get.
  destruct (recv_queue (self w)); [apply tame_refl|now apply tame_same].
Qed.

Lemma tame_join fuel t : preserves tame (join fuel t).
Proof. intros w. apply drift_tame, join_drift. Qed.

Lemma tame_wait_result fuel : preserves tame (wait_result fuel).
Proof. intros w. apply drift_tame, wait_result_drift. Qed.

Lemma tame_report v : preserves tame (report v).
Proof.
  destruct v as [s|items|]; simpl;
    [apply tame_send| |apply tame_ret].
  frame_bind; try apply tame_index; try apply tame_send.
  - destruct a; first [apply tame_ret|apply tame_raise].
  - destruct a1; first [apply tame_ret|apply tame_raise].
Qed.

Lemma tame_position_branch line : preserves tame (position_branch line).
Proof.
  unfold position_branch. frame_bind;
    try (apply tame_modify; reflexivity);
    try apply tame_index; try apply tame_attr; try apply tame_chess_call.
  - destruct (negb (String.eqb a0 "startpos")); [|apply tame_ret].
    destruct (String.eqb a0 "fen"); [apply tame_modify; reflexivity|apply tame_ret].
  - destruct (_ && _); [apply tame_chess_call|apply tame_ret].
Qed.

Lemma tame_stop_branch fuel : preserves tame (stop_branch fuel).
Proof.
  unfold stop_branch, send_queue_put. frame_bind;
    try (apply tame_modify; reflexivity);
    try apply tame_attr; try apply tame_wait_result;
    try apply tame_recv_queue_get; try apply tame_report.
  destruct a3; [apply tame_join|apply tame_raise].
Qed.

Lemma tame_take_result : preserves tame take_result.
Proof.
  unfold take_result. frame_bind; [apply tame_attr|].
  destruct a; [apply tame_ret|].
  frame_bind; try (apply tame_modify; reflexivity);
    try apply tame_recv_queue_get; try apply tame_report; apply tame_ret.
Qed.

(** ** At most one running search *)

Lemma owned_tame w w' : owned w -> tame w w' -> owned w'.
Proof.
  intros Ho [Hm _ Ha] t Ht. rewrite Hm. apply Ho, Ha, Ht.
Qed.

Lemma no_worker_owned w : no_worker w -> owned w.
Proof. intros H t Ht. rewrite H in Ht. discriminate. Qed.

Lemma no_worker_same w w' : threads w' = threads w -> no_worker w -> no_worker w'.
Proof. intros Ht H t. unfold is_alive. rewrite Ht. apply H. Qed.

Lemma owned_no_handle w : owned w -> move_thread (self w) = None -> no_worker w.
Proof.
  intros Ho Hm t. destruct (is_alive w t) eqn:E; [|reflexivity].
  apply Ho in E. congruence.
Qed.

Lemma owned_handle_finished w t :
  owned w -> move_thread (self w) = Some t -> is_alive w t = false -> no_worker w.
Proof.
  intros Ho Hm Ht t'. destruct (is_alive w t') eqn:E; [|reflexivity].
  pose proof (Ho _ E) as H. rewrite Hm in H. injection H as ->. congruence.
Qed.

Lemma stop_previous_none fuel w :
  move_thread (self w) = None -> stop_previous fuel w = (Done tt, w).
Proof.
  intros H. unfold stop_previous, bind, attr. simpl. now rewrite H.
Qed.

Lemma stop_previous_some fuel w t :
  move_thread (self w) = Some t ->
  stop_previous fuel w =
    match join fuel t (cancelled w) with
    | (Done _, w2) => (Done tt, on_self (with_move_thread None) w2)
    | (Raise e, w2) => (Raise e, w2)
    | (Hang, w2) => (Hang, w2)
    end.
Proof.
  intros H. unfold stop_previous, bind, attr. simpl. rewrite H.
  unfold send_queue_put, modify. fold (cancelled w).
  now destruct (join fuel t (cancelled w)) as [[[]|e|] w2].
Qed.

Lemma cancelled_tame w : tame w (cancelled w).
Proof. now apply tame_same. Qed.

(** After [stop_previous], either the reader is still blocked in [join]
    and nothing else changed, or no thread runs any more. *)
Lemma stop_previous_owned fuel w :
  owned w ->
  match stop_previous fuel w with
  | (Done _, w2) => no_worker w2 /\ move_thread (self w2) = None
  | (_, w2) => owned w2
  end.
Proof.
  intros Ho. destruct (move_thread (self w)) as [t|] eqn:Hm.
  - rewrite (stop_previous_some _ _ _ Hm).
    pose proof (join_drift fuel t (cancelled w)) as Hd.
    pose proof (join_done fuel t (cancelled w)) as Hdone.
    assert (Ho2 : owned (snd (join fuel t (cancelled w)))).
    { eapply owned_tame; [exact Ho|].
      eapply tame_trans; [apply cancelled_tame|apply drift_tame, Hd]. }
    destruct (join fuel t (cancelled w)) as [[[]|e|] w2]; simpl in *; auto.
    split; [|reflexivity].
    apply (no_worker_same w2); [reflexivity|].
    apply (owned_handle_finished _ t); auto.
    rewrite (drift_move_thread _ _ Hd). exact Hm.
  - rewrite (stop_previous_none _ _ Hm). split; [|exact Hm].
    now apply owned_no_handle.
Qed.

Lemma owned_start_thread pos tl md w :
  no_worker w -> owned (snd (start_thread pos tl md w)).
Proof.
  intros Hn t. unfold start_thread, is_alive; simpl.
  destruct (decide (t < length (threads w))%nat) as [Hlt|Hge].
  - rewrite lookup_app_l by assumption. intros Ht.
    specialize (Hn t). unfold is_alive in Hn. congruence.
  - destruct (decide (t = length (threads w))) as [->|Hne]; [reflexivity|].
    rewrite lookup_ge_None_2; [discriminate|].
    rewrite length_app. simpl. lia.
Qed.

Lemma go_branch_owned fuel line w :
  owned w -> owned (snd (go_branch fuel line w)).
Proof.
  intros Ho. unfold go_branch, bind.
  pose proof (stop_previous_owned fuel w Ho) as H.
  destruct (stop_previous fuel w) as [[[]|e|] w2]; simpl; auto.
  destruct H as [Hn Hm].
  unfold clear_queues, bind, modify. simpl.
  set (w3 := on_self _ (on_self _ w2)).
  assert (Hn3 : no_worker w3) by (apply (no_worker_same w2); auto).
  destruct (go_limits line) as [e|[tl md]]; simpl.
  - now apply no_worker_owned.
  - unfold attr. simpl. now apply owned_start_thread.
Qed.

Lemma check_best_move_owned fuel w :
  owned w -> owned (snd (check_best_move fuel w)).
Proof.
  intros Ho. unfold check_best_move, bind, attr. simpl.
  destruct (move_thread (self w)) as [t|] eqn:Hm.
  - destruct (is_alive w t) eqn:Ht; [exact Ho|].
    rewrite join_finished by assumption. unfold modify. simpl.
    eapply owned_tame; [|apply tame_take_result].
    apply no_worker_owned, (no_worker_same w); [reflexivity|].
    now apply (owned_handle_finished _ t).
  - eapply owned_tame; [exact Ho|apply tame_take_result].
Qed.

Lemma owned_preserves {A} (c : M A) w :
  preserves tame c -> owned w -> owned (snd (c w)).
Proof. intros Hc Ho. eapply owned_tame; [exact Ho|apply Hc]. Qed.

Lemma process_command_owned fuel line w :
  owned w -> owned (snd (process_command fuel line w)).
Proof.
  intros Ho. unfold process_command.
  destruct (String.eqb line "uci").
  { apply owned_preserves; [|exact Ho].
    frame_bind; first [apply tame_attr|apply tame_send]. }
  destruct (String.eqb line "isready").
  { apply owned_preserves; [apply tame_send|exact Ho]. }
  destruct (Py.startswith line "position").
  { apply owned_preserves; [apply tame_position_branch|exact Ho]. }
  destruct (Py.startswith line "go").
  { now apply go_branch_owned. }
  destruct (Py.startswith line "stop").
  { apply owned_preserves; [apply tame_stop_branch|exact Ho]. }
  destruct (Py.startswith line "ucinewgame").
  { apply owned_preserves; [apply tame_modify; reflexivity|exact Ho]. }
  destruct (Py.startswith line "setoption"); [exact Ho|].
  destruct (Py.startswith line "quit"); exact Ho.
Qed.

Lemma owned_boot a e : owned (boot a e).
Proof. intros t. unfold is_alive, boot. simpl. discriminate. Qed.

Lemma exec_owned w ev : owned w -> owned (exec w ev).
Proof.
  intros Ho. destruct ev as [fuel line|fuel|t]; simpl.
  - now apply process_command_owned.
  - now apply check_best_move_owned.
  - eapply owned_tame; [exact Ho|apply drift_tame, step_thread_drift].
Qed.

Lemma run_owned evs w : owned w -> owned (run evs w).
Proof.
  revert w. induction evs as [|ev evs IH]; intros w Ho; simpl; auto.
  apply IH, exec_owned, Ho.
Qed.

Lemma reachable_owned w : reachable w -> owned w.
Proof. intros (a & e & evs & ->). apply run_owned, owned_boot. Qed.

Lemma filter_running_nil (l : list thread) :
  (forall i th, l !! i = Some th -> running th = false) ->
  List.filter running l = [].
Proof.
  induction l as [|th l IH]; intros H; simpl; [reflexivity|].
  rewrite (H 0%nat th eq_refl). apply IH. intros i th' Hi. apply (H (S i) th' Hi).
Qed.

Lemma filter_running_unique (l : list thread) :
  (forall i j a b, l !! i = Some a -> l !! j = Some b ->
                   running a = true -> running b = true -> i = j) ->
  (length (List.filter running l) <= 1)%nat.
Proof.
  induction l as [|th l IH]; intros H; simpl; [lia|].
  destruct (running th) eqn:E.
  - rewrite filter_running_nil; [simpl; lia|].
    intros i th' Hi. destruct (running th') eqn:E'; [|reflexivity].
    specialize (H 0%nat (S i) th th' eq_refl Hi E E'). discriminate.
  - apply IH. intros i j a b Hi Hj Ha Hb.
    specialize (H (S i) (S j) a b Hi Hj Ha Hb). lia.
Qed.

Lemma owned_alive_count w : owned w -> (alive_count w <= 1)%nat.
Proof.
  intros Ho. apply filter_running_unique. intros i j a b Hi Hj Ha Hb.
  assert (Some i = Some j) as [= ->]; [|reflexivity].
  rewrite <- (Ho i), <- (Ho j); auto; unfold is_alive; now rewrite ?Hi, ?Hj.
Qed.

(** ** What the workers do not see *)

(** The frames and the control queue after a step depend only on the
    frames and the control queue before it: the reader may take results
    and store them without any effect on the workers. *)
Lemma set_frame_threads t f w1 w2 :
  threads w1 = threads w2 ->
  threads (set_frame t f w1) = threads (set_frame t f w2).
Proof.
  intros H. unfold set_frame. rewrite H.
  now destruct (threads w2 !! t).
Qed.

Lemma step_thread_same t w1 w2 :
  same_workers w1 w2 -> same_workers (step_thread t w1) (step_thread t w2).
Proof.
  intros [Ht Hq]. unfold step_thread. rewrite Ht.
  destruct (threads w2 !! t) as [th|]; [|now split].
  destruct (t_frame th) as [f|]; [|now split].
  destruct (resume f) as [k|v f'|f'|].
  - rewrite Hq. destruct (send_queue (self w2)) as [|m q] eqn:E.
    + split; [now apply set_frame_threads|].
      rewrite !set_frame_self. congruence.
    + split; [now apply set_frame_threads|].
      now rewrite !set_frame_self.
  - split; [now apply set_frame_threads|].
    rewrite !set_frame_self. exact Hq.
  - split; [now apply set_frame_threads|].
    rewrite !set_frame_self. exact Hq.
  - split; [now apply set_frame_threads|].
    rewrite !set_frame_self. exact Hq.
Qed.

Lemma same_workers_alive w1 w2 t :
  same_workers w1 w2 -> is_alive w1 t = is_alive w2 t.
Proof. intros [H _]. unfold is_alive. now rewrite H. Qed.

Lemma step_thread_behind pre t w1 w2 :
  behind pre w1 w2 -> behind pre (step_thread t w1) (step_thread t w2).
Proof.
  intros [Hs Hq]. split; [now apply step_thread_same|].
  destruct Hs as [Ht Hc]. unfold step_thread. rewrite Ht.
  destruct (threads w2 !! t) as [th|]; [|exact Hq].
  destruct (t_frame th) as [f|]; [|exact Hq].
  destruct (resume f) as [k|v f'|f'|]; rewrite ?set_frame_self; auto.
  - rewrite Hc. destruct (send_queue (self w2)); rewrite !set_frame_self; auto.
  - simpl. rewrite Hq. now rewrite app_assoc.
Qed.

Lemma foldl_behind pre ts w1 w2 :
  behind pre w1 w2 ->
  behind pre (foldl (fun w t => step_thread t w) w1 ts)
             (foldl (fun w t => step_thread t w) w2 ts).
Proof.
  revert w1 w2. induction ts as [|t ts IH]; intros w1 w2 H; simpl; auto.
  apply IH, step_thread_behind, H.
Qed.

Lemma rounds_behind pre n w1 w2 :
  behind pre w1 w2 -> behind pre (rounds n w1) (rounds n w2).
Proof.
  revert w1 w2. induction n as [|n IH]; intros w1 w2 H; simpl; auto.
  apply IH. unfold yield. rewrite (proj1 (proj1 H)). now apply foldl_behind.
Qed.

(** Without a running thread a round changes nothing. *)
Lemma step_thread_finished t w : is_alive w t = false -> step_thread t w = w.
Proof.
  unfold is_alive, running, step_thread.
  destruct (threads w !! t) as [th|]; [|reflexivity].
  destruct (t_frame th); [discriminate|reflexivity].
Qed.

Lemma yield_no_worker w : no_worker w -> yield w = w.
Proof.
  intros H. unfold yield. induction (seq 0 (length (threads w))) as [|t ts IH];
    simpl; [reflexivity|].
  now rewrite step_thread_finished by apply H.
Qed.

Lemma rounds_no_worker n w : no_worker w -> rounds n w = w.
Proof.
  intros H. induction n as [|n IH]; simpl; [reflexivity|].
  now rewrite yield_no_worker.
Qed.

(** ** The report of a result *)

Lemma report_line v l w :
  bestmove_line v = Some l ->
  report v w = (Done tt, mkWorld (self w) (threads w) (stdout w ++ [l])).
Proof.
  destruct v as [m|items|]; simpl; [|destruct items as [|[m| |] [|[p| |] rest]]|];
    try discriminate; intros [= <-]; reflexivity.
Qed.

Lemma report_not_hang v w : fst (report v w) <> Hang.
Proof.
  destruct v as [m|items|]; simpl; try discriminate.
  unfold bind, index, as_str, ret, raise, send.
  destruct items as [|[m| |] [|[p| |] rest]]; simpl; discriminate.
Qed.

Lemma drain_nil q : drain q = [].
Proof. induction q; simpl; auto. Qed.

(** ** The [go] branch *)

(** What [stop_previous] does when it returns: the threads are those
    reached after some rounds with the token in the control queue, none of
    them runs, and only the handle has been cleared since. *)
Lemma stop_previous_done fuel w w2 :
  stop_previous fuel w = (Done tt, w2) ->
  (move_thread (self w) = None /\ w2 = w) \/
  (exists t k, move_thread (self w) = Some t /\ (k <= fuel)%nat /\
     is_alive (rounds k (cancelled w)) t = false /\
     w2 = on_self (with_move_thread None) (rounds k (cancelled w))).
Proof.
  destruct (move_thread (self w)) as [t|] eqn:Hm.
  - rewrite (stop_previous_some _ _ _ Hm).
    destruct (join_rounds fuel t (cancelled w)) as (k & Hk & Hs & Ho).
    destruct (join fuel t (cancelled w)) as [[[]|e|] wj]; simpl in *;
      try discriminate.
    intros [= <-]. right. exists t, k. subst wj.
    destruct Ho as [[_ Ha]|[? _]]; [|discriminate]. auto.
  - rewrite (stop_previous_none _ _ Hm). intros [= <-]. auto.
Qed.

Lemma stop_previous_frame fuel w :
  length (threads (snd (stop_previous fuel w))) = length (threads w) /\
  position (self (snd (stop_previous fuel w))) = position (self w) /\
  silent w (snd (stop_previous fuel w)).
Proof.
  destruct (move_thread (self w)) as [t|] eqn:Hm.
  - rewrite (stop_previous_some _ _ _ Hm).
    pose proof (join_drift fuel t (cancelled w)) as D.
    destruct (join fuel t (cancelled w)) as [[[]|e|] wj]; simpl in *;
      destruct D; repeat split; simpl; auto.
  - rewrite (stop_previous_none _ _ Hm). simpl. repeat split.
Qed.

Lemma go_branch_done fuel line w w' :
  go_branch fuel line w = (Done tt, w') ->
  exists w2 lim,
    stop_previous fuel w = (Done tt, w2) /\ go_limits line = inr lim /\
    w' = mkWorld
           (with_move_thread (Some (length (threads w2)))
              (with_recv_queue [] (with_send_queue [] (self w2))))
           (threads w2 ++ [fresh_thread (position (self w2)) lim])
           (stdout w2).
Proof.
  unfold go_branch, bind.
  destruct (stop_previous fuel w) as [[[]|e|] w2]; try discriminate.
  unfold clear_queues, bind, modify. simpl.
  destruct (go_limits line) as [e|[tl md]]; simpl; [discriminate|].
  unfold attr, start_thread. simpl. intros [= <-].
  exists w2, (tl, md). rewrite !drain_nil. auto.
Qed.

Lemma go_branch_silent fuel line w : silent w (snd (go_branch fuel line w)).
Proof.
  unfold go_branch, bind.
  destruct (stop_previous_frame fuel w) as (_ & _ & Hs).
  destruct (stop_previous fuel w) as [[[]|e|] w2]; simpl in *; auto.
  unfold clear_queues, bind, modify. simpl.
  destruct (go_limits line) as [e|[tl md]]; simpl; exact Hs.
Qed.

(** Enough fuel to join the previous search and well-formed arguments:
    the branch returns. *)
Lemma go_branch_returns fuel line w lim :
  (forall t, move_thread (self w) = Some t ->
     exists n, (n <= fuel)%nat /\ is_alive (rounds n (cancelled w)) t = false) ->
  go_limits line = inr lim ->
  fst (go_branch fuel line w) = Done tt.
Proof.
  intros Hj Hl. unfold go_branch, bind.
  assert (Hp : fst (stop_previous fuel w) = Done tt).
  { destruct (move_thread (self w)) as [t|] eqn:Hm.
    - rewrite (stop_previous_some _ _ _ Hm).
      destruct (Hj t eq_refl) as (n & Hn & Ha).
      destruct (join_complete n fuel t (cancelled w) Ha Hn) as (k & _ & -> & _).
      reflexivity.
    - now rewrite (stop_previous_none _ _ Hm). }
  destruct (stop_previous fuel w) as [o w2]. simpl in Hp. subst o.
  unfold clear_queues, bind, modify. simpl. rewrite Hl.
  now destruct lim.
Qed.

(** When [go] returns with a thread in [self.move_thread] before the
    call: the new thread has been added to the world reached from the
    cancelled one after [k] rounds, in which the old thread is over and no
    thread runs; the queues are empty and the new thread has not moved. *)
Lemma go_joins_before_start fuel line w t w' :
  owned w ->
  move_thread (self w) = Some t ->
  go_branch fuel line w = (Done tt, w') ->
  exists k lim,
    (k <= fuel)%nat /\ go_limits line = inr lim /\
    is_alive (rounds k (cancelled w)) t = false /\
    no_worker (rounds k (cancelled w)) /\
    threads w' = threads (rounds k (cancelled w))
                   ++ [fresh_thread (position (self w)) lim] /\
    move_thread (self w') = Some (length (threads w)) /\
    send_queue (self w') = [] /\ recv_queue (self w') = [].
Proof.
  intros Ho Hm Hgo.
  apply go_branch_done in Hgo as (w2 & lim & Hp & Hl & ->).
  apply stop_previous_done in Hp as [[Hnone _]|(t' & k & Hm' & Hk & Ha & ->)];
    [congruence|].
  rewrite Hm in Hm'. injection Hm' as <-.
  pose proof (rounds_drift k (cancelled w)) as D.
  exists k, lim. simpl.
  rewrite (drift_length _ _ D), (drift_position _ _ D). simpl.
  repeat split; auto.
  apply (owned_handle_finished _ t); [| |exact Ha].
  - eapply owned_tame; [exact Ho|].
    eapply tame_trans; [apply cancelled_tame|apply drift_tame, D].
  - rewrite (drift_move_thread _ _ D). exact Hm.
Qed.


(** Malformed arguments: the branch raises and starts nothing. *)
Lemma go_branch_raises fuel line w e :
  fst (stop_previous fuel w) = Done tt ->
  go_limits line = inl e ->
  fst (go_branch fuel line w) = Raise e /\
  length (threads (snd (go_branch fuel line w))) = length (threads w).
Proof.
  intros Hp Hl. unfold go_branch, bind.
  destruct (stop_previous_frame fuel w) as (Hlen & _ & _).
  destruct (stop_previous fuel w) as [o w2]. simpl in *. subst o.
  unfold clear_queues, bind, modify. simpl. rewrite Hl. simpl. auto.
Qed.

Lemma stop_previous_returns fuel w :
  (forall t, move_thread (self w) = Some t ->
     exists n, (n <= fuel)%nat /\ is_alive (rounds n (cancelled w)) t = false) ->
  fst (stop_previous fuel w) = Done tt.
Proof.
  intros Hj. destruct (move_thread (self w)) as [t|] eqn:Hm.
  - rewrite (stop_previous_some _ _ _ Hm).
    destruct (Hj t eq_refl) as (n & Hn & Ha).
    destruct (join_complete n fuel t (cancelled w) Ha Hn) as (k & _ & -> & _).
    reflexivity.
  - now rewrite (stop_previous_none _ _ Hm).
Qed.

(** ** The poll *)

Lemma take_result_cases w :
  fst (take_result w) <> Hang /\
  (recv_queue (self w) = [] -> take_result w = (Done false, w)) /\
  (forall v q l,
     recv_queue (self w) = v :: q -> bestmove_line v = Some l ->
     take_result w =
       (Done true,
        mkWorld (with_best_move (Some v) (with_recv_queue q (self w)))
                (threads w) (stdout w ++ [l]))).
Proof.
  unfold take_result, bind, attr, recv_queue_get, modify. simpl.
  destruct (recv_queue (self w)) as [|v q] eqn:E; simpl; rewrite ?E; simpl.
  - repeat split; [discriminate|discriminate].
  - set (w4 := on_self (with_best_move (Some v)) (on_self (with_recv_queue q) w)).
    split; [|split; [discriminate|]].
    + pose proof (report_not_hang v w4) as H.
      destruct (report v w4) as [[[]|e|] w5]; simpl in *; congruence.
    + intros v' q' l [= <- <-] Hl. now rewrite (report_line _ _ _ Hl).
Qed.

Lemma clear_handle_none w :
  move_thread (self w) = None -> on_self (with_move_thread None) w = w.
Proof.
  destruct w as [[bm pos tl sq rq md au en mt] ths out]. simpl.
  intros ->. reflexivity.
Qed.

(** ** The claims about the command processor *)

(** C1. In every world a session can be in, whatever commands, polls and
    worker steps it is made of and wherever a blocking wait stands (any
    fuel), at most one search thread is running, and a running thread is
    the one that [self.move_thread] names.  A [go] that finds a thread
    there and returns has put the cancellation token, has waited until
    that thread was over, and has started the new thread in a world where
    no thread runs. *)
Theorem at_most_one_search_task (w : world) :
  reachable w ->
  (alive_count w <= 1)%nat /\
  owned w /\
  (forall fuel line t w',
     Py.startswith line "go" = true ->
     move_thread (self w) = Some t ->
     process_command fuel line w = (Done tt, w') ->
     (alive_count w' <= 1)%nat /\
     exists k lim,
       (k <= fuel)%nat /\
       is_alive (rounds k (cancelled w)) t = false /\
       no_worker (rounds k (cancelled w)) /\
       threads w' = threads (rounds k (cancelled w))
                      ++ [fresh_thread (position (self w)) lim]).
Proof.
  intros Hr. pose proof (reachable_owned _ Hr) as Ho.
  split; [now apply owned_alive_count|]. split; [exact Ho|].
  intros fuel line t w' Hline Hm Hgo.
  split.
  - apply owned_alive_count.
    change w' with (snd (Done tt, w')). rewrite <- Hgo.
    now apply process_command_owned.
  - rewrite process_command_go in Hgo by assumption.
    destruct (go_joins_before_start _ _ _ _ _ Ho Hm Hgo)
      as (k & lim & Hk & _ & Ha & Hn & Ht & _).
    exists k, lim. auto.
Qed.

(** C2. A [go] processed while a search started by an earlier [go] is
    still in [self.move_thread]: nothing is printed and the stored best
    move is not touched, whatever the outcome.  The call returns as soon
    as the fuel covers the rounds the old thread needs after the token.
    When it returns, the new thread has been added to a world in which no
    thread runs, reached from the cancelled one by rounds of the old
    thread; the new thread has not taken a step and both queues are
    empty, so every later result is one of the new thread. *)
Theorem go_supersedes_previous_search
    (fuel : nat) (line : string) (w : world) (t : nat) :
  reachable w ->
  Py.startswith line "go" = true ->
  move_thread (self w) = Some t ->
  silent w (snd (process_command fuel line w)) /\
  (forall n lim,
     is_alive (rounds n (cancelled w)) t = false -> (n <= fuel)%nat ->
     go_limits line = inr lim ->
     fst (process_command fuel line w) = Done tt) /\
  (forall w',
     process_command fuel line w = (Done tt, w') ->
     exists k lim,
       (k <= fuel)%nat /\ go_limits line = inr lim /\
       is_alive (rounds k (cancelled w)) t = false /\
       no_worker (rounds k (cancelled w)) /\
       threads w' = threads (rounds k (cancelled w))
                      ++ [fresh_thread (position (self w)) lim] /\
       move_thread (self w') = Some (length (threads w)) /\
       send_queue (self w') = [] /\ recv_queue (self w') = []).
Proof.
  intros Hr Hline Hm. rewrite process_command_go by assumption.
  split; [apply go_branch_silent|]. split.
  - intros n lim Ha Hn Hl. apply (go_branch_returns _ _ _ lim); [|exact Hl].
    intros t' Ht'. rewrite Hm in Ht'. injection Ht' as <-. eauto.
  - intros w' Hgo.
    apply (go_joins_before_start _ _ _ t); auto using reachable_owned.
Qed.

(** C3. [stop] with a search thread in [self.move_thread]: the reader
    puts the cancellation token, waits for the result queue, joins the
    thread and prints exactly one line.  If, once the token is in the
    control queue, the result queue yields [v] within [n] rounds and the
    thread is over within [m] rounds, then with that much fuel the call
    returns, [v] is stored as the best move, the thread is finished and
    the output has grown by the single line [bestmove m] (a move) or
    [bestmove m ponder p] (a move and a ponder move).  The workers have
    run [j] rounds with the token in their control queue, and of what
    they put on the result queue exactly the head [v] has been taken. *)
Theorem stop_reports_best_move
    (fuel : nat) (line : string) (w : world) (t n m : nat)
    (v : pyval) (q : list pyval) (l : string) :
  Py.startswith line "stop" = true ->
  move_thread (self w) = Some t ->
  recv_queue (self (rounds n (cancelled w))) = v :: q ->
  is_alive (rounds m (cancelled w)) t = false ->
  bestmove_line v = Some l ->
  (n <= fuel)%nat -> (m <= fuel)%nat ->
  exists w' j,
    process_command fuel line w = (Done tt, w') /\
    stdout w' = stdout w ++ [l] /\
    best_move (self w') = Some v /\
    is_alive w' t = false /\
    threads w' = threads (rounds j (cancelled w)) /\
    send_queue (self w') = send_queue (self (rounds j (cancelled w))) /\
    recv_queue (self (rounds j (cancelled w))) = v :: recv_queue (self w').
Proof.
  intros Hline Hm Hrecv Hover Hl Hn Hmf.
  rewrite process_command_stop by assumption.
  set (wc := cancelled w) in *.
  destruct (wait_result_complete n fuel wc) as (k & Hk & Hw & Hne);
    [rewrite Hrecv; discriminate|lia|].
  destruct (rounds_recv_mono k n wc Hk) as [more Hmore].
  rewrite Hrecv in Hmore.
  destruct (recv_queue (self (rounds k wc))) as [|v' q'] eqn:Ek; [contradiction|].
  simpl in Hmore. injection Hmore as <- _.
  set (w4 := on_self (with_best_move (Some v))
               (on_self (with_recv_queue q') (rounds k wc))).
  assert (Hbehind : behind [v] w4 (rounds k wc)).
  { split; [split; reflexivity|]. simpl. exact Ek. }
  assert (Hover4 : is_alive (rounds m w4) t = false).
  { rewrite (same_workers_alive _ _ _ (proj1 (rounds_behind _ m _ _ Hbehind))).
    rewrite <- rounds_add. apply (rounds_alive_mono m); [lia|exact Hover]. }
  destruct (join_complete m fuel t w4 Hover4 Hmf) as (k' & Hk' & Hj & Ha).
  pose proof (rounds_drift k wc) as Dk.
  pose proof (rounds_drift k' w4) as Dk'.
  assert (Hmt : move_thread (self (rounds k wc)) = Some t).
  { rewrite (drift_move_thread _ _ Dk). exact Hm. }
  destruct (rounds_behind _ k' _ _ Hbehind) as [[Hth Hsq] Hrq].
  rewrite <- rounds_add in Hth, Hsq, Hrq.
  exists (mkWorld (self (rounds k' w4)) (threads (rounds k' w4))
                  (stdout (rounds k' w4) ++ [l])), (k + k')%nat.
  repeat split.
  - unfold stop_branch, bind, send_queue_put, modify, attr, recv_queue_get.
    change (on_self _ w) with wc. rewrite Hw. simpl. rewrite Ek. simpl.
    rewrite Hmt. fold w4. rewrite Hj. apply report_line, Hl.
  - simpl. rewrite (drift_stdout _ _ Dk'). simpl.
    now rewrite (drift_stdout _ _ Dk).
  - simpl. now rewrite (drift_best_move _ _ Dk').
  - exact Ha.
  - exact Hth.
  - exact Hsq.
  - exact Hrq.
Qed.

(** C4 (the code departs from it). The moves of a [position startpos
    moves m1 ... mk] line are never replayed: the word [moves] is looked
    for at index 8 of the tokens, where it stands only after a six-field
    FEN.  For every list of move tokens (space-free words, the sixth of
    which is not the word [moves] itself) the line does exactly what
    [position startpos] does: the descriptor stored is the one of the
    board built from the text [startpos], and the call raises if the
    [chess] module rejects that text. *)
Theorem position_startpos_ignores_moves
    (fuel : nat) (w : world) (ms : list string) :
  Forall (fun m => Py.split m = [m]) ms ->
  ms !! 5%nat <> Some "moves"%string ->
  process_command fuel (Py.join ("position" :: "startpos" :: "moves" :: ms)%string) w
    = process_command fuel "position startpos" w /\
  process_command fuel "position startpos" w
    = match board_of_fen "startpos" with
      | Some b => (Done tt, on_self (with_position (fen b))
                              (on_self (with_position "startpos") w))
      | None => (Raise ChessError, on_self (with_position "startpos") w)
      end.
Proof.
  intros Hall H5.
  assert (Hsplit : Py.split (Py.join ("position" :: "startpos" :: "moves" :: ms)%string)
                   = ("position" :: "startpos" :: "moves" :: ms)%string).
  { apply split_join; [discriminate|]. repeat (apply Forall_cons; split; auto). }
  assert (Htok : token_is ("position" :: "startpos" :: "moves" :: ms)%string 8 "moves"
                 = false).
  { unfold token_is. simpl. destruct (ms !! 5%nat) as [a|] eqn:E; [|reflexivity].
    destruct (String.eqb_spec a "moves") as [->|]; [contradiction|reflexivity]. }
  rewrite !process_command_position by reflexivity.
  unfold position_branch. rewrite Hsplit, Htok, andb_false_r.
  unfold bind, modify, index, attr. simpl.
  destruct (board_of_fen "startpos"); simpl; auto.
Qed.


(** C6 (the code departs from it). [stop] never writes
    [self.move_thread]: when the call is over, the handle still names the
    thread that was joined. *)
Theorem stop_keeps_handle (fuel : nat) (line : string) (w : world) :
  Py.startswith line "stop" = true ->
  move_thread (self (snd (process_command fuel line w))) = move_thread (self w).
Proof.
  intros Hline. rewrite process_command_stop by assumption.
  apply (tame_move_thread _ _ (tame_stop_branch fuel w)).
Qed.

(** C7, amended. [check_best_move] never blocks, whatever the fuel.
    While the thread in [self.move_thread] is running it returns [False]
    and changes nothing, even if a result is already on the queue.  Once
    that thread is over (or if there is none) the handle is cleared; with
    an empty result queue the answer is [False] and nothing is printed,
    otherwise the head of the queue is taken, stored, printed as [stop]
    prints it, and the answer is [True]. *)
Theorem check_best_move_reports_finished_search (fuel : nat) (w : world) :
  fst (check_best_move fuel w) <> Hang /\
  (forall t, move_thread (self w) = Some t -> is_alive w t = true ->
     check_best_move fuel w = (Done false, w)) /\
  ((forall t, move_thread (self w) = Some t -> is_alive w t = false) ->
     (recv_queue (self w) = [] ->
        check_best_move fuel w = (Done false, on_self (with_move_thread None) w)) /\
     (forall v q l,
        recv_queue (self w) = v :: q -> bestmove_line v = Some l ->
        check_best_move fuel w =
          (Done true,
           mkWorld (with_best_move (Some v)
                      (with_recv_queue q (with_move_thread None (self w))))
                   (threads w) (stdout w ++ [l])))).
Proof.
  unfold check_best_move, bind, attr. simpl.
  destruct (move_thread (self w)) as [t|] eqn:Hm.
  - destruct (is_alive w t) eqn:Ha.
    + split; [discriminate|]. split; [reflexivity|].
      intros H. specialize (H t eq_refl). congruence.
    + rewrite join_finished by assumption. unfold modify. simpl.
      destruct (take_result_cases (on_self (with_move_thread None) w))
        as (H1 & H2 & H3).
      split; [exact H1|]. split.
      * intros t' [= <-] Ht'. congruence.
      * intros _. split; [exact H2|]. intros v q l Hq Hl.
        now rewrite (H3 v q l Hq Hl).
  - destruct (take_result_cases w) as (H1 & H2 & H3).
    split; [exact H1|]. split; [discriminate|].
    intros _. rewrite clear_handle_none by assumption.
    split; [exact H2|]. intros v q l Hq Hl. rewrite (H3 v q l Hq Hl).
    destruct w as [[bm pos tl sq rq md au en mt] ths out]. simpl in *.
    now subst mt.
Qed.

(** The final [else] branch: a line that is neither [uci] nor [isready]
    and starts with none of [position], [go], [stop], [ucinewgame],
    [setoption], [quit] returns, prints nothing and leaves the world as it
    was. *)
Lemma unrecognized_line_ignored (fuel : nat) (line : string) (w : world) :
  recognized line = false ->
  process_command fuel line w = (Done tt, w).
Proof.
  unfold recognized. simpl existsb. intros H.
  rewrite !orb_false_iff in H.
  destruct H as ((Hu & Hi) & Hp & Hg & Hs & Hn & Ho & Hq & _).
  unfold process_command. now rewrite Hu, Hi, Hp, Hg, Hs, Hn, Ho, Hq.
Qed.

(** C8. Malformed lines are not ignored, against the docstring of [read]
    ("Ignore invalid/empty commands"): the arguments are indexed and
    converted unchecked.  In every state in which the join of an earlier
    search completes, [go movetime] and [go depth] without a value raise
    [IndexError] at [args[i + 1]], with a value that is no integer literal
    they raise [ValueError] at [int()], and [position] without a second
    token raises [IndexError] at [args[1]]. *)
Theorem malformed_line_raises (fuel : nat) (w : world) (flag : string) :
  flag = "movetime"%string \/ flag = "depth"%string ->
  (forall t, move_thread (self w) = Some t ->
     exists n, (n <= fuel)%nat /\ is_alive (rounds n (cancelled w)) t = false) ->
  fst (process_command fuel ("go " ++ flag)%string w) = Raise IndexError /\
  (forall tok, Py.split tok = [tok] -> Py.int tok = None ->
     fst (process_command fuel ("go " ++ flag ++ " " ++ tok)%string w)
       = Raise ValueError) /\
  fst (process_command fuel "position" w) = Raise IndexError.
Proof.
  intros Hflag Hjoin.
  pose proof (stop_previous_returns fuel w Hjoin) as Hp.
  split; [|split].
  - rewrite process_command_go by (destruct Hflag as [->| ->]; reflexivity).
    apply go_branch_raises; [exact Hp|].
    destruct Hflag as [->| ->]; reflexivity.
  - intros tok Htok Hint.
    rewrite process_command_go by (destruct Hflag as [->| ->]; reflexivity).
    apply go_branch_raises; [exact Hp|].
    unfold go_limits.
    destruct Hflag as [->| ->]; cbn [String.append Py.split Ascii.eqb Bool.eqb];
      rewrite Htok; simpl; rewrite Hint; reflexivity.
  - rewrite process_command_position by reflexivity. reflexivity.
Qed.


(** C10. [stop] with no running search and an empty result queue never
    returns: for every amount of fuel the reader is still in the
    [sleep] loop. *)
Theorem stop_without_search_hangs (fuel : nat) (line : string) (w : world) :
  Py.startswith line "stop" = true ->
  no_worker w ->
  recv_queue (self w) = [] ->
  fst (process_command fuel line w) = Hang.
Proof.
  intros Hl Hn Hq. rewrite process_command_stop by assumption.
  unfold stop_branch, bind, send_queue_put, modify. fold (cancelled w).
  assert (Hn' : no_worker (cancelled w)) by (apply (no_worker_same w); auto).
  destruct (wait_result_rounds fuel (cancelled w)) as (k & _ & Hs & Ho).
  rewrite rounds_no_worker in Hs, Ho by assumption.
  destruct (wait_result fuel (cancelled w)) as [o w1]. simpl in *.
  destruct Ho as [[_ Hne]|[-> _]]; [|reflexivity].
  exfalso. apply Hne. exact Hq.
Qed.

End Properties.

(** ** The claims on a session of the example engine *)

Import Stub ExampleEngine.

Lemma reachable_run (evs : list event) : reachable (run evs Demo.start).
Proof. exists default_author, default_engine_name, evs. reflexivity. Qed.

(** Three [go] commands in a row: three threads were started, one runs. *)
Lemma at_most_one_search_task_witness :
  length (threads Demo.restarted) = 3%nat /\
  (alive_count Demo.restarted <= 1)%nat.
Proof.
  split; [reflexivity|].
  apply (at_most_one_search_task Demo.restarted (reachable_run _)).
Defined.

(** A [go] while [go infinite] is searching. *)
Lemma go_supersedes_previous_search_witness :
  move_thread (self Demo.searching) = Some 0%nat /\
  is_alive Demo.searching 0 = true /\
  silent Demo.searching (snd (process_command 3 "go movetime 0" Demo.searching)) /\
  fst (process_command 3 "go movetime 0" Demo.searching) = Done tt.
Proof.
  split; [reflexivity|]. split; [reflexivity|].
  pose proof (go_supersedes_previous_search 3 "go movetime 0" Demo.searching 0
                (reachable_run _) eq_refl eq_refl) as (Hs & Hd & _).
  split; [exact Hs|].
  apply (Hd 3%nat (0, 0)); [reflexivity|lia|reflexivity].
Defined.

(** [go movetime 0] immediately followed by [stop] prints exactly one
    [bestmove] line. *)
Lemma stop_reports_best_move_witness :
  stdout Demo.started = [] /\
  exists w',
    process_command 2 "stop" Demo.started = (Done tt, w') /\
    stdout w' = stdout Demo.started ++ ["bestmove e2e4"%string] /\
    best_move (self w') = Some (PStr "e2e4") /\
    is_alive w' 0 = false.
Proof.
  split; [reflexivity|].
  destruct (stop_reports_best_move 2 "stop" Demo.started 0 1 2 (PStr "e2e4") []
              "bestmove e2e4" eq_refl eq_refl eq_refl eq_refl eq_refl
              ltac:(lia) ltac:(lia))
    as (w' & j & H1 & H2 & H3 & H4 & _).
  exists w'. auto.
Defined.

(** The two moves of the example line are not replayed. *)
Lemma position_startpos_ignores_moves_witness :
  process_command 0 "position startpos moves e2e4 e7e5" Demo.placed
    = process_command 0 "position startpos" Demo.placed.
Proof.
  apply (position_startpos_ignores_moves 0 Demo.placed ["e2e4"; "e7e5"]%string).
  - repeat constructor.
  - discriminate.
Defined.



(** After [go movetime 0] and [stop] the move has been printed once and
    the handle still names thread 0, which is over; the next poll clears
    the handle, answers [False] and prints nothing. *)
Lemma stop_keeps_handle_witness :
  stdout Demo.stopped = ["bestmove e2e4"%string] /\
  is_alive Demo.stopped 0 = false /\
  move_thread (self Demo.stopped) = Some 0%nat /\
  fst (check_best_move 0 Demo.stopped) = Done false /\
  move_thread (self (snd (check_best_move 0 Demo.stopped))) = None /\
  stdout (snd (check_best_move 0 Demo.stopped)) = stdout Demo.stopped.
Proof.
  split; [vm_compute; reflexivity|]. split; [vm_compute; reflexivity|].
  split; [|split; [|split]; vm_compute; reflexivity].
  change Demo.stopped with (snd (process_command 2 "stop" Demo.started)).
  rewrite (stop_keeps_handle 2 "stop" Demo.started eq_refl).
  vm_compute. reflexivity.
Defined.

(** C7, as stated, fails: the search has put its move on the result queue
    and has not returned yet; the poll answers [False], prints nothing and
    leaves the move on the queue. *)
Lemma check_best_move_skips_queued_result :
  move_thread (self Demo.delivered) = Some 0%nat /\
  is_alive Demo.delivered 0 = true /\
  recv_queue (self Demo.delivered) = [PStr "e2e4"] /\
  check_best_move 5 Demo.delivered = (Done false, Demo.delivered).
Proof. repeat split. Qed.

(** Once the search has returned, the poll reports its move. *)
Lemma check_best_move_reports_finished_search_witness :
  is_alive Demo.finished 0 = false /\
  check_best_move 0 Demo.finished =
    (Done true,
     mkWorld (with_best_move (Some (PStr "e2e4"))
                (with_recv_queue [] (with_move_thread None (self Demo.finished))))
             (threads Demo.finished)
             (stdout Demo.finished ++ ["bestmove e2e4"%string])).
Proof.
  split; [reflexivity|].
  destruct (check_best_move_reports_finished_search 0 Demo.finished)
    as (_ & _ & H).
  destruct H as (_ & H).
  - intros t [= <-]. reflexivity.
  - apply (H (PStr "e2e4") [] "bestmove e2e4"%string); reflexivity.
Defined.

(** [go movetime] without a number raises [IndexError]; so does [position]
    without arguments, after it has reset the position of the session. *)
Lemma malformed_arguments_raise :
  fst (process_command 0 "go movetime" Demo.start) = Raise IndexError /\
  fst (process_command 0 "position" Demo.placed) = Raise IndexError /\
  position (self Demo.placed) <> "startpos"%string /\
  position (self (snd (process_command 0 "position" Demo.placed))) = "startpos"%string.
Proof. repeat split. vm_compute. discriminate. Qed.

(** Malformed lines in a new session. *)
Lemma malformed_line_raises_witness :
  fst (process_command 0 "go movetime" Demo.start) = Raise IndexError /\
  fst (process_command 0 "go movetime soon" Demo.start) = Raise ValueError /\
  fst (process_command 0 "position" Demo.start) = Raise IndexError.
Proof.
  destruct (malformed_line_raises 0 Demo.start "movetime" (or_introl eq_refl)
              ltac:(intros t Ht; discriminate Ht)) as (H1 & H2 & H3).
  split; [exact H1|]. split; [exact (H2 "soon"%string eq_refl eq_refl)|exact H3].
Defined.

(** A line that is no command at all. *)
Lemma unrecognized_line_ignored_example :
  recognized "hello world" = false /\
  process_command 0 "hello world" Demo.start = (Done tt, Demo.start).
Proof.
  split; [reflexivity|].
  apply (unrecognized_line_ignored 0 "hello world" Demo.start eq_refl).
Qed.


(** In a new session no thread runs and the result queue is empty: a
    first [stop] never returns. *)
Lemma stop_without_search_hangs_witness :
  no_worker Demo.start /\ recv_queue (self Demo.start) = [] /\
  fst (process_command 1000 "stop" Demo.start) = Hang.
Proof.
  assert (Hn : no_worker Demo.start) by (intros t; reflexivity).
  split; [exact Hn|]. split; [reflexivity|].
  apply (stop_without_search_hangs 1000 "stop" Demo.start eq_refl Hn eq_refl).
Defined.

(** * The rest of the code *)

(** ** Effects that a relation respects *)

Section Sessions.
Context {chess : Chess} {task : SearchTask}.

Lemma startswith_bestmove (s : string) :
  Py.startswith ("bestmove " ++ s)%string "bestmove " = true.
Proof. unfold Py.startswith. simpl. apply prefix_empty. Qed.

Ltac pres_bind Htrans :=
  apply preserves_bind; [exact Htrans| |intros ?; try pres_bind Htrans].

Lemma pres_yield (R : world -> world -> Prop) :
  (forall w, R w w) ->
  (forall w1 w2 w3, R w1 w2 -> R w2 w3 -> R w1 w3) ->
  (forall t w, R w (step_thread t w)) ->
  forall w, R w (yield w).
Proof.
  intros Hrefl Htrans Hstep w. unfold yield.
  generalize (seq 0 (length (threads w))). intros ts. revert w.
  induction ts as [|t ts IH]; intros w; simpl; [apply Hrefl|].
  eapply Htrans; [apply Hstep|apply IH].
Qed.

Lemma pres_join (R : world -> world -> Prop) fuel t :
  (forall w, R w w) ->
  (forall w1 w2 w3, R w1 w2 -> R w2 w3 -> R w1 w3) ->
  (forall t w, R w (step_thread t w)) ->
  preserves R (join fuel t).
Proof.
  intros Hrefl Htrans Hstep. induction fuel as [|fuel IH]; intros w; simpl.
  - destruct (is_alive w t); apply Hrefl.
  - destruct (is_alive w t); [|apply Hrefl].
    eapply Htrans; [apply (pres_yield R Hrefl Htrans Hstep)|apply IH].
Qed.

Lemma pres_wait_result (R : world -> world -> Prop) fuel :
  (forall w, R w w) ->
  (forall w1 w2 w3, R w1 w2 -> R w2 w3 -> R w1 w3) ->
  (forall t w, R w (step_thread t w)) ->
  preserves R (wait_result fuel).
Proof.
  intros Hrefl Htrans Hstep. induction fuel as [|fuel IH]; intros w; simpl.
  - destruct (recv_queue (self w)); apply Hrefl.
  - destruct (recv_queue (self w)); [|apply Hrefl].
    eapply Htrans; [apply (pres_yield R Hrefl Htrans Hstep)|apply IH].
Qed.

Lemma pres_report (R : world -> world -> Prop) v :
  (forall w, R w w) ->
  (forall w1 w2 w3, R w1 w2 -> R w2 w3 -> R w1 w3) ->
  (forall text w, Py.startswith text "bestmove " = true -> R w (printing text w)) ->
  preserves R (report v).
Proof.
  intros Hrefl Htrans Hprint.
  destruct v as [s|items|]; simpl.
  - intros w. apply Hprint, startswith_bestmove.
  - pres_bind Htrans.
    + intros w. unfold index. destruct (items !! 0%nat); apply Hrefl.
    + intros w. destruct a; apply Hrefl.
    + intros w. unfold index. destruct (items !! 1%nat); apply Hrefl.
    + intros w. destruct a1; apply Hrefl.
    + intros w. apply Hprint, startswith_bestmove.
  - intros w. apply Hrefl.
Qed.

Lemma pres_recv_queue_get (R : world -> world -> Prop) :
  (forall w, R w w) ->
  (forall w v q, recv_queue (self w) = v :: q -> R w (on_self (with_recv_queue q) w)) ->
  preserves R recv_queue_get.
Proof.
  intros Hrefl Hpop w. unfold recv_queue_get.
  destruct (recv_queue (self w)) as [|v q] eqn:E; simpl; [apply Hrefl|].
  now apply (Hpop w v q).
Qed.

Lemma pres_stop_branch (R : world -> world -> Prop) fuel :
  (forall w, R w w) ->
  (forall w1 w2 w3, R w1 w2 -> R w2 w3 -> R w1 w3) ->
  (forall t w, R w (step_thread t w)) ->
  (forall w, R w (cancelled w)) ->
  (forall w v q, recv_queue (self w) = v :: q -> R w (on_self (with_recv_queue q) w)) ->
  (forall v w, R w (on_self (with_best_move v) w)) ->
  (forall text w, Py.startswith text "bestmove " = true -> R w (printing text w)) ->
  preserves R (stop_branch fuel).
Proof.
  intros Hrefl Htrans Hstep Hcancel Hpop Hbest Hprint.
  unfold stop_branch. pres_bind Htrans.
  - intros w. apply Hcancel.
  - now apply pres_wait_result.
  - now apply pres_recv_queue_get.
  - intros w. apply Hbest.
  - intros w. apply Hrefl.
  - destruct a3; [now apply pres_join|intros w; apply Hrefl].
  - now apply pres_report.
Qed.

Lemma pres_take_result (R : world -> world -> Prop) :
  (forall w, R w w) ->
  (forall w1 w2 w3, R w1 w2 -> R w2 w3 -> R w1 w3) ->
  (forall w v q, recv_queue (self w) = v :: q -> R w (on_self (with_recv_queue q) w)) ->
  (forall v w, R w (on_self (with_best_move v) w)) ->
  (forall text w, Py.startswith text "bestmove " = true -> R w (printing text w)) ->
  preserves R take_result.
Proof.
  intros Hrefl Htrans Hpop Hbest Hprint.
  unfold take_result. pres_bind Htrans; [intros w; apply Hrefl|].
  destruct a; [intros w; apply Hrefl|].
  pres_bind Htrans.
  - now apply pres_recv_queue_get.
  - intros w. apply Hbest.
  - now apply pres_report.
  - intros w. apply Hrefl.
Qed.

Lemma pres_check_best_move (R : world -> world -> Prop) fuel :
  (forall w, R w w) ->
  (forall w1 w2 w3, R w1 w2 -> R w2 w3 -> R w1 w3) ->
  (forall w v q, recv_queue (self w) = v :: q -> R w (on_self (with_recv_queue q) w)) ->
  (forall v w, R w (on_self (with_best_move v) w)) ->
  (forall w, R w (on_self (with_move_thread None) w)) ->
  (forall text w, Py.startswith text "bestmove " = true -> R w (printing text w)) ->
  preserves R (check_best_move fuel).
Proof.
  intros Hrefl Htrans Hpop Hbest Hnone Hprint w.
  pose proof (pres_take_result R Hrefl Htrans Hpop Hbest Hprint) as Htake.
  unfold check_best_move, bind, attr. simpl.
  destruct (move_thread (self w)) as [t|]; [|apply Htake].
  destruct (is_alive w t) eqn:Ha; [apply Hrefl|].
  rewrite join_finished by assumption. unfold modify. simpl.
  eapply Htrans; [apply Hnone|apply Htake].
Qed.

Lemma pres_stop_previous (R : world -> world -> Prop) fuel :
  (forall w, R w w) ->
  (forall w1 w2 w3, R w1 w2 -> R w2 w3 -> R w1 w3) ->
  (forall t w, R w (step_thread t w)) ->
  (forall w, R w (cancelled w)) ->
  (forall w, R w (on_self (with_move_thread None) w)) ->
  preserves R (stop_previous fuel).
Proof.
  intros Hrefl Htrans Hstep Hcancel Hnone.
  unfold stop_previous. pres_bind Htrans; [intros w; apply Hrefl|].
  destruct a; [|intros w; apply Hrefl].
  pres_bind Htrans.
  - intros w. apply Hcancel.
  - now apply pres_join.
  - intros w. apply Hnone.
Qed.

Lemma pres_go_branch (R : world -> world -> Prop) fuel line :
  (forall w, R w w) ->
  (forall w1 w2 w3, R w1 w2 -> R w2 w3 -> R w1 w3) ->
  (forall t w, R w (step_thread t w)) ->
  (forall w, R w (cancelled w)) ->
  (forall w, R w (on_self (with_move_thread None) w)) ->
  (forall w, R w (on_self (fun u => with_send_queue (drain (send_queue u)) u) w)) ->
  (forall w, R w (on_self (fun u => with_recv_queue (drain (recv_queue u)) u) w)) ->
  (forall pos tl md w, R w (snd (start_thread pos tl md w))) ->
  preserves R (go_branch fuel line).
Proof.
  intros Hrefl Htrans Hstep Hcancel Hnone Hcs Hcr Hstart.
  unfold go_branch. pres_bind Htrans.
  - now apply pres_stop_previous.
  - unfold clear_queues. pres_bind Htrans; intros w; [apply Hcs|apply Hcr].
  - destruct (go_limits line) as [e|[tl md]]; [intros w; apply Hrefl|].
    pres_bind Htrans; [intros w; apply Hrefl|].
    intros w. apply Hstart.
Qed.

Lemma pres_position_branch (R : world -> world -> Prop) line :
  (forall w, R w w) ->
  (forall w1 w2 w3, R w1 w2 -> R w2 w3 -> R w1 w3) ->
  (forall p w, R w (on_self (with_position p) w)) ->
  preserves R (position_branch line).
Proof.
  intros Hrefl Htrans Hpos.
  unfold position_branch. pres_bind Htrans.
  - intros w. apply Hpos.
  - intros w. unfold index. destruct (_ !! _); apply Hrefl.
  - destruct (negb _); [|intros w; apply Hrefl].
    destruct (String.eqb _ _); intros w; [apply Hpos|apply Hrefl].
  - intros w. apply Hrefl.
  - intros w. destruct (board_of_fen a2); apply Hrefl.
  - destruct (_ && _); intros w; [|apply Hrefl].
    destruct (push_all _ _); apply Hrefl.
  - intros w. apply Hpos.
Qed.

Lemma pres_process_command (R : world -> world -> Prop) fuel line :
  effects R -> preserves R (process_command fuel line).
Proof.
  intros [Hrefl Htrans Hstep Hpos Hcancel Hcs Hcr Hpop Hbest Hnone Hstart
          Hprint Hname Hauthor Huciok Hreadyok].
  unfold process_command.
  destruct (String.eqb line "uci").
  { intros w. unfold bind, attr, send. simpl.
    eapply Htrans; [apply Hname|].
    eapply Htrans; [apply (Hauthor (printing _ w))|]. apply Huciok. }
  destruct (String.eqb line "isready"); [intros w; apply Hreadyok|].
  destruct (Py.startswith line "position"); [now apply pres_position_branch|].
  destruct (Py.startswith line "go"); [now apply pres_go_branch|].
  destruct (Py.startswith line "stop"); [now apply pres_stop_branch|].
  destruct (Py.startswith line "ucinewgame"); [intros w; apply Hpos|].
  destruct (Py.startswith line "setoption"); [intros w; apply Hrefl|].
  destruct (Py.startswith line "quit"); intros w; apply Hrefl.
Qed.

Lemma effects_exec (R : world -> world -> Prop) w ev :
  effects R -> R w (exec w ev).
Proof.
  intros He. destruct ev as [fuel line|fuel|t]; simpl.
  - now apply pres_process_command.
  - destruct He. now apply pres_check_best_move.
  - apply (e_step R He).
Qed.

Lemma effects_run (R : world -> world -> Prop) evs w :
  effects R -> R w (run evs w).
Proof.
  intros He. revert w. induction evs as [|ev evs IH]; intros w; simpl.
  - apply (e_refl R He).
  - eapply (e_trans R He); [exact (effects_exec R w ev He)|apply IH].
Qed.

(** ** What a step of a worker changes in [self] *)

Lemma UCI_eta (u : UCI) :
  with_recv_queue (recv_queue u) (with_send_queue (send_queue u) u) = u.
Proof. now destruct u. Qed.

(** A step of a worker changes the two queues only: it may take the head
    of the control queue and may append to the result queue. *)
Lemma step_thread_self t w :
  exists sq rq taken,
    self (step_thread t w) = with_recv_queue rq (with_send_queue sq (self w)) /\
    send_queue (self w) = taken ++ sq.
Proof.
  assert (Hid : exists sq rq taken,
             self w = with_recv_queue rq (with_send_queue sq (self w)) /\
             send_queue (self w) = taken ++ sq).
  { exists (send_queue (self w)), (recv_queue (self w)), [].
    now rewrite UCI_eta. }
  unfold step_thread.
  destruct (threads w !! t) as [th|]; [|exact Hid].
  destruct (t_frame th) as [f|]; [|exact Hid].
  destruct (resume f) as [k|v f'|f'|]; rewrite ?set_frame_self; try exact Hid.
  - destruct (send_queue (self w)) as [|m q] eqn:E; rewrite set_frame_self.
    + exists [], (recv_queue (self w)), []. rewrite <- E at 1.
      now rewrite UCI_eta.
    + exists q, (recv_queue (self w)), [m]. simpl. split; [|reflexivity].
      destruct (self w); reflexivity.
  - exists (send_queue (self w)), (recv_queue (self w) ++ [v]), [].
    simpl. split; [|reflexivity]. destruct (self w); reflexivity.
Qed.

(** ** The relations of the session invariants *)

Lemma protocol_line_identity (u u' : UCI) l :
  author u' = author u -> engine_name u' = engine_name u ->
  protocol_line u' l = protocol_line u l.
Proof. intros Ha He. unfold protocol_line. now rewrite Ha, He. Qed.

Lemma speaks_refl w : speaks w w.
Proof. constructor; auto. exists []. split; [now rewrite app_nil_r|constructor]. Qed.

Lemma speaks_trans w1 w2 w3 : speaks w1 w2 -> speaks w2 w3 -> speaks w1 w3.
Proof.
  intros [A1 E1 T1 M1 (n1 & O1 & F1)] [A2 E2 T2 M2 (n2 & O2 & F2)].
  constructor; try congruence.
  exists (n1 ++ n2). split; [now rewrite O2, O1, app_assoc|].
  apply Forall_app. split; [exact F1|].
  eapply Forall_impl; [exact F2|]. intros l Hl. simpl in Hl.
  now rewrite <- (protocol_line_identity _ (self w2)).
Qed.

Lemma speaks_same w w' :
  author (self w') = author (self w) ->
  engine_name (self w') = engine_name (self w) ->
  time_limit (self w') = time_limit (self w) ->
  max_depth (self w') = max_depth (self w) ->
  stdout w' = stdout w ->
  speaks w w'.
Proof.
  intros. constructor; auto. exists []. split; [now rewrite app_nil_r|constructor].
Qed.

Lemma speaks_printing text w :
  protocol_line (self w) text = true -> speaks w (printing text w).
Proof.
  intros H. constructor; auto. exists [text]. split; [reflexivity|].
  now repeat constructor.
Qed.

Lemma effects_speaks : effects speaks.
Proof.
  apply mkEffects.
  - apply speaks_refl.
  - apply speaks_trans.
  - intros t w. destruct (step_thread_self t w) as (sq & rq & tk & Hs & _).
    apply speaks_same; rewrite ?Hs; try reflexivity.
    apply (drift_stdout _ _ (step_thread_drift t w)).
  - intros; apply speaks_same; reflexivity.
  - intros; apply speaks_same; reflexivity.
  - intros; apply speaks_same; reflexivity.
  - intros; apply speaks_same; reflexivity.
  - intros; apply speaks_same; reflexivity.
  - intros; apply speaks_same; reflexivity.
  - intros; apply speaks_same; reflexivity.
  - intros; apply speaks_same; reflexivity.
  - intros text w H. apply speaks_printing. unfold protocol_line.
    rewrite H. now rewrite !orb_true_r.
  - intros w. apply speaks_printing. unfold protocol_line.
    now rewrite String.eqb_refl.
  - intros w. apply speaks_printing. unfold protocol_line.
    now rewrite String.eqb_refl, !orb_true_r.
  - intros w. now apply speaks_printing.
  - intros w. now apply speaks_printing.
Qed.

Lemma effects_only_stop : effects (keeps only_stop).
Proof.
  apply mkEffects; unfold keeps, only_stop; simpl.
  - auto.
  - auto.
  - intros t w H. destruct (step_thread_self t w) as (sq & rq & tk & Hs & Hq).
    rewrite Hs. simpl. rewrite Hq in H. now apply Forall_app in H as [_ H].
  - auto.
  - intros w H. apply Forall_app. split; [exact H|now repeat constructor].
  - intros w _. rewrite drain_nil. constructor.
  - auto.
  - auto.
  - auto.
  - auto.
  - auto.
  - auto.
  - auto.
  - auto.
  - auto.
  - auto.
Qed.

Lemma effects_handle_last : effects (keeps handle_last).
Proof.
  apply mkEffects; unfold keeps, handle_last; simpl.
  - auto.
  - auto.
  - intros t w H t' Ht'.
    pose proof (step_thread_drift t w) as D.
    rewrite (drift_move_thread _ _ D) in Ht'. rewrite (drift_length _ _ D). auto.
  - auto.
  - auto.
  - auto.
  - auto.
  - auto.
  - auto.
  - intros w _ t. discriminate.
  - intros pos tl md w _ t [= <-]. rewrite length_app. simpl. lia.
  - auto.
  - auto.
  - auto.
  - auto.
  - auto.
Qed.

(** ** Invariants of every session *)

(** X1. Whatever a session is made of, every line on the output is one
    of [id name <name>], [id author <author>], [uciok], [readyok], or
    starts with [bestmove ]. *)
Theorem session_output_is_protocol (a e : string) (evs : list event) :
  Forall (fun l => protocol_line (UCI_init a e) l = true)
         (stdout (run evs (boot a e))).
Proof.
  destruct (effects_run speaks evs (boot a e) effects_speaks)
    as [_ _ _ _ (new & Hout & Hall)].
  rewrite Hout. exact Hall.
Qed.

(** X2. The identity given to [UCI.__init__] is never changed, and the
    fields [time_limit] and [max_depth] of the object are never written:
    in every session they keep the values of the constructor. *)
Theorem session_keeps_identity (a e : string) (evs : list event) :
  author (self (run evs (boot a e))) = a /\
  engine_name (self (run evs (boot a e))) = e /\
  time_limit (self (run evs (boot a e))) = 0 /\
  max_depth (self (run evs (boot a e))) = 0.
Proof.
  destruct (effects_run speaks evs (boot a e) effects_speaks)
    as [H1 H2 H3 H4 _].
  auto.
Qed.

(** X3. The control queue never holds anything but the cancellation
    token: whatever is on [send_queue], in any session, is the text
    [stop]. *)
Theorem session_control_queue_only_stop (a e : string) (evs : list event) :
  only_stop (run evs (boot a e)).
Proof.
  apply (effects_run (keeps only_stop) evs (boot a e) effects_only_stop).
  constructor.
Qed.

(** X4. [self.move_thread], whenever it is set, names the thread that was
    started last; in particular it always names a thread that exists. *)
Theorem session_handle_is_last_thread (a e : string) (evs : list event) :
  forall t, move_thread (self (run evs (boot a e))) = Some t ->
            S t = length (threads (run evs (boot a e))) /\
            is_Some (threads (run evs (boot a e)) !! t).
Proof.
  intros t Ht.
  assert (H : handle_last (run evs (boot a e))).
  { apply (effects_run (keeps handle_last) evs (boot a e) effects_handle_last).
    intros t'. discriminate. }
  specialize (H t Ht). split; [exact H|].
  apply lookup_lt_is_Some. lia.
Qed.

(** ** Which commands write the position and the output *)

Lemma same_position_step t w : same_position w (step_thread t w).
Proof. apply (drift_position _ _ (step_thread_drift t w)). Qed.

Lemma same_position_trans w1 w2 w3 :
  same_position w1 w2 -> same_position w2 w3 -> same_position w1 w3.
Proof. unfold same_position. congruence. Qed.

(** X5. The position of the session is written by [position] and
    [ucinewgame] lines only: every other command, every poll and every
    step of a worker leaves it as it is, however the command ends. *)
Theorem position_only_set_by_position_commands (w : world) (ev : event) :
  (forall fuel line, ev = Command fuel line ->
     Py.startswith line "position" = false /\
     Py.startswith line "ucinewgame" = false) ->
  position (self (exec w ev)) = position (self w).
Proof.
  intros Hev. change (same_position w (exec w ev)).
  destruct ev as [fuel line|fuel|t]; simpl.
  - destruct (Hev fuel line eq_refl) as [Hp Hn].
    unfold process_command. rewrite Hp, Hn.
    destruct (String.eqb line "uci"); [reflexivity|].
    destruct (String.eqb line "isready"); [reflexivity|].
    destruct (Py.startswith line "go").
    { apply pres_go_branch; try reflexivity;
        first [exact same_position_trans|exact same_position_step]. }
    destruct (Py.startswith line "stop").
    { apply pres_stop_branch; try reflexivity;
        first [exact same_position_trans|exact same_position_step]. }
    destruct (Py.startswith line "setoption"); [reflexivity|].
    destruct (Py.startswith line "quit"); reflexivity.
  - apply pres_check_best_move; try reflexivity. exact same_position_trans.
  - apply same_position_step.
Qed.

Lemma quiet_step t w : stdout (step_thread t w) = stdout w.
Proof. apply (drift_stdout _ _ (step_thread_drift t w)). Qed.

Lemma quiet_trans (w1 w2 w3 : world) :
  stdout w2 = stdout w1 -> stdout w3 = stdout w2 -> stdout w3 = stdout w1.
Proof. congruence. Qed.

(** X6. Only [uci], [isready] and [stop] lines print: any other line, be
    it [position], [go], [ucinewgame], [setoption], [quit] or a line that
    is no command, leaves the output as it is, also when it raises or
    blocks. *)
Theorem other_commands_print_nothing (fuel : nat) (line : string) (w : world) :
  line <> "uci"%string -> line <> "isready"%string ->
  Py.startswith line "stop" = false ->
  stdout (snd (process_command fuel line w)) = stdout w.
Proof.
  intros Hu Hi Hs. unfold process_command.
  destruct (String.eqb_spec line "uci"); [contradiction|].
  destruct (String.eqb_spec line "isready"); [contradiction|].
  rewrite Hs.
  destruct (Py.startswith line "position").
  { apply (pres_position_branch (fun w w' => stdout w' = stdout w));
      [reflexivity|exact quiet_trans|reflexivity]. }
  destruct (Py.startswith line "go"); [apply go_branch_silent|].
  destruct (Py.startswith line "ucinewgame"); [reflexivity|].
  destruct (Py.startswith line "setoption"); [reflexivity|].
  destruct (Py.startswith line "quit"); reflexivity.
Qed.

Lemma preserves_bind_then {A B} (Q R : world -> world -> Prop)
    (c : M A) (k : A -> M B) :
  (forall w1 w2, Q w1 w2 -> R w1 w2) ->
  (forall w1 w2 w3, Q w1 w2 -> R w2 w3 -> R w1 w3) ->
  preserves Q c -> (forall a, preserves R (k a)) -> preserves R (bind c k).
Proof.
  intros Hsub Hcomp Hc Hk w. unfold bind.
  specialize (Hc w). destruct (c w) as [[a|e|] w1]; simpl in *; auto.
  eapply Hcomp; [exact Hc|apply Hk].
Qed.

Lemma at_most_one_line_quiet (w1 w2 : world) :
  stdout w2 = stdout w1 -> at_most_one_line w1 w2.
Proof. intros H. now left. Qed.

Lemma at_most_one_line_after (w1 w2 w3 : world) :
  stdout w2 = stdout w1 -> at_most_one_line w2 w3 -> at_most_one_line w1 w3.
Proof. intros H [H'|(l & H' & Hl)]; [left|right; exists l]; now rewrite H', H. Qed.

Lemma report_at_most_one_line v : preserves at_most_one_line (report v).
Proof.
  intros w. destruct v as [s|items|]; simpl.
  - right. exists ("bestmove " ++ s)%string. split; [reflexivity|].
    apply startswith_bestmove.
  - unfold bind, index, as_str, ret, raise, send.
    destruct items as [|[m| |] [|[p| |] rest]]; simpl; try (now left).
    right. eexists. split; [reflexivity|]. apply startswith_bestmove.
  - now left.
Qed.

Ltac quiet_bind :=
  apply (preserves_bind_then (fun w w' => stdout w' = stdout w) at_most_one_line);
  [exact at_most_one_line_quiet|exact at_most_one_line_after| |intros ?].

Lemma take_result_at_most_one_line : preserves at_most_one_line take_result.
Proof.
  unfold take_result. quiet_bind; [intros ?; reflexivity|].
  destruct a; [now left|].
  quiet_bind.
  { apply (pres_recv_queue_get (fun w w' => stdout w' = stdout w)); reflexivity. }
  quiet_bind; [intros ?; reflexivity|].
  intros w. unfold bind.
  pose proof (report_at_most_one_line a0 w) as H.
  destruct (report a0 w) as [[[]|e|] w1]; exact H.
Qed.

(** X7. A [stop] line and a poll print at most one line each, and that
    line starts with [bestmove ]: a result is never printed twice by one
    call, whatever the search has put on the result queue. *)
Theorem stop_and_poll_print_at_most_one_line
    (fuel : nat) (line : string) (w : world) :
  Py.startswith line "stop" = true ->
  at_most_one_line w (snd (process_command fuel line w)) /\
  at_most_one_line w (snd (check_best_move fuel w)).
Proof.
  intros Hline. split.
  - rewrite process_command_stop by assumption. revert w.
    change (preserves at_most_one_line (stop_branch fuel)).
    unfold stop_branch. quiet_bind; [intros ?; reflexivity|].
    quiet_bind.
    { apply (pres_wait_result (fun w w' => stdout w' = stdout w));
        [reflexivity|exact quiet_trans|exact quiet_step]. }
    quiet_bind.
    { apply (pres_recv_queue_get (fun w w' => stdout w' = stdout w)); reflexivity. }
    quiet_bind; [intros ?; reflexivity|].
    quiet_bind; [intros ?; reflexivity|].
    quiet_bind; [|apply report_at_most_one_line].
    destruct a3; [|intros ?; reflexivity].
    apply (pres_join (fun w w' => stdout w' = stdout w));
      [reflexivity|exact quiet_trans|exact quiet_step].
  - unfold check_best_move, bind, attr. simpl.
    destruct (move_thread (self w)) as [t|]; [|apply take_result_at_most_one_line].
    destruct (is_alive w t) eqn:Ha; [now left|].
    rewrite join_finished by assumption. unfold modify. simpl.
    apply (at_most_one_line_after _ (on_self (with_move_thread None) w));
      [reflexivity|apply take_result_at_most_one_line].
Qed.

(** ** The flags of [go] *)

Lemma go_limits_join (toks : list string) :
  Forall (fun m => Py.split m = [m]) toks ->
  go_limits (Py.join ("go"%string :: toks)) = go_args toks 0 0.
Proof.
  intros H. unfold go_limits. rewrite split_join; [reflexivity|discriminate|].
  apply Forall_cons. split; [reflexivity|exact H].
Qed.

(** What the loop has read from a prefix of the tokens that parses on its
    own is the state from which it reads the rest. *)
Lemma go_args_app (pre rest : list string) (tl md tl1 md1 : Z) :
  go_args pre tl md = inr (tl1, md1) ->
  go_args (pre ++ rest) tl md = go_args rest tl1 md1.
Proof.
  revert tl md. induction pre as [|a pre IH]; intros tl md H; simpl in *.
  - now injection H as -> ->.
  - destruct (String.eqb a "movetime").
    { destruct pre as [|n pre']; [discriminate|]. simpl in *.
      destruct (Py.int n); [|discriminate]. now apply IH. }
    destruct (String.eqb a "depth").
    { destruct pre as [|n pre']; [discriminate|]. simpl in *.
      destruct (Py.int n); [|discriminate]. now apply IH. }
    destruct (String.eqb a "infinite"); now apply IH.
Qed.

Lemma go_args_no_flag (junk : list string) (tl md : Z) :
  forallb (fun tok => negb (is_flag tok)) junk = true ->
  go_args junk tl md = inr (tl, md).
Proof.
  induction junk as [|a junk IH]; intros H; simpl in *; [reflexivity|].
  apply andb_true_iff in H as [Ha Hj]. unfold is_flag in Ha.
  rewrite negb_true_iff, !orb_false_iff in Ha. destruct Ha as ((-> & ->) & ->).
  now apply IH.
Qed.

Lemma int_not_flag (tok : string) (n : Z) :
  Py.int tok = Some n -> is_flag tok = false.
Proof.
  intros H. unfold is_flag.
  destruct (String.eqb_spec tok "movetime") as [->|_];
    [vm_compute in H; discriminate|].
  destruct (String.eqb_spec tok "depth") as [->|_];
    [vm_compute in H; discriminate|].
  destruct (String.eqb_spec tok "infinite") as [->|_];
    [vm_compute in H; discriminate|reflexivity].
Qed.

(** X8. The [go] loop skips whatever it does not know: tokens that are
    none of [movetime], [depth], [infinite] (the time controls [wtime],
    [btime], ... and their values) in front of the flags change nothing
    in the limits or in the error of the line. *)
Theorem go_skips_other_options (junk rest : list string) :
  Forall (fun m => Py.split m = [m]) (junk ++ rest) ->
  forallb (fun tok => negb (is_flag tok)) junk = true ->
  go_limits (Py.join ("go"%string :: junk ++ rest))
    = go_limits (Py.join ("go"%string :: rest)).
Proof.
  intros Hall Hjunk.
  rewrite !go_limits_join; [|now apply Forall_app in Hall as [_ ?]|exact Hall].
  apply go_args_app. now apply go_args_no_flag.
Qed.

(** X9. The flags of a [go] line are read from left to right, each one
    on top of what the flags before it have set: after tokens that give
    the limits [lim], [infinite] sets the time limit to 999999999 and
    keeps the depth, [movetime n] sets the time limit to [n] and keeps
    the depth, [depth n] sets the depth to [n] and keeps the time
    limit. *)
Theorem go_later_flag_overrides (pre : list string) (lim : Z * Z) :
  Forall (fun m => Py.split m = [m]) pre ->
  go_limits (Py.join ("go"%string :: pre)) = inr lim ->
  go_limits (Py.join ("go"%string :: pre ++ ["infinite"%string]))
    = inr (999999999, snd lim) /\
  (forall tok n, Py.split tok = [tok] -> Py.int tok = Some n ->
     go_limits (Py.join ("go"%string :: pre ++ ["movetime"%string; tok]))
       = inr (n, snd lim) /\
     go_limits (Py.join ("go"%string :: pre ++ ["depth"%string; tok]))
       = inr (fst lim, n)).
Proof.
  intros Hall Hpre. rewrite go_limits_join in Hpre by assumption.
  destruct lim as [tl md]. split.
  - rewrite go_limits_join.
    + now rewrite (go_args_app _ _ _ _ _ _ Hpre).
    + apply Forall_app. split; [exact Hall|now repeat constructor].
  - intros tok n Htok Hint.
    pose proof (int_not_flag _ _ Hint) as Hf. unfold is_flag in Hf.
    rewrite !orb_false_iff in Hf. destruct Hf as ((F1 & F2) & F3).
    split.
    + rewrite go_limits_join.
      * rewrite (go_args_app _ _ _ _ _ _ Hpre). simpl.
        now rewrite Hint, F1, F2, F3.
      * apply Forall_app. split; [exact Hall|now repeat constructor].
    + rewrite go_limits_join.
      * rewrite (go_args_app _ _ _ _ _ _ Hpre). simpl.
        now rewrite Hint, F1, F2, F3.
      * apply Forall_app. split; [exact Hall|now repeat constructor].
Qed.

Lemma go_args_dangling (pre : list string) (flag : string) (tl md : Z) :
  flag = "movetime"%string \/ flag = "depth"%string ->
  (exists e, go_args (pre ++ [flag]) tl md = inl e) /\
  (forall lim, go_args pre tl md = inr lim ->
               go_args (pre ++ [flag]) tl md = inl IndexError).
Proof.
  intros Hflag.
  assert (Hend : forall tl md, go_args [flag] tl md = inl IndexError).
  { intros. destruct Hflag as [->| ->]; reflexivity. }
  split.
  - revert tl md. induction pre as [|a pre IH]; intros tl md.
    + exists IndexError. apply Hend.
    + simpl. destruct (String.eqb a "movetime").
      { destruct pre as [|n pre']; simpl.
        - destruct (Py.int flag); [|eauto]. destruct Hflag as [->| ->]; simpl; eauto.
        - destruct (Py.int n); [apply (IH z md)|eauto]. }
      destruct (String.eqb a "depth").
      { destruct pre as [|n pre']; simpl.
        - destruct (Py.int flag); [|eauto]. destruct Hflag as [->| ->]; simpl; eauto.
        - destruct (Py.int n); [apply (IH tl z)|eauto]. }
      destruct (String.eqb a "infinite"); apply IH.
  - intros [tl1 md1] H. now rewrite (go_args_app _ _ _ _ _ _ H).
Qed.

(** X10. A [go] line that ends in [movetime] or [depth] with no value
    never gives limits: it is an error, and it is [IndexError] whenever
    the tokens before the flag parse on their own. *)
Theorem go_flag_without_value_fails (pre : list string) (flag : string) :
  Forall (fun m => Py.split m = [m]) pre ->
  flag = "movetime"%string \/ flag = "depth"%string ->
  (exists e, go_limits (Py.join ("go"%string :: pre ++ [flag])) = inl e) /\
  (forall lim, go_limits (Py.join ("go"%string :: pre)) = inr lim ->
     go_limits (Py.join ("go"%string :: pre ++ [flag])) = inl IndexError).
Proof.
  intros Hall Hflag.
  assert (Hall' : Forall (fun m => Py.split m = [m]) (pre ++ [flag])).
  { apply Forall_app. split; [exact Hall|].
    destruct Hflag as [->| ->]; now repeat constructor. }
  rewrite !go_limits_join by assumption.
  apply go_args_dangling, Hflag.
Qed.

(** X11. A [go] line whose flags are malformed still stops the search in
    progress before it raises: when the fuel covers the join, the call
    raises the error of the flags with the handle cleared, both queues
    empty, the old thread over, nothing printed and no thread started
    (the threads are as many as before). *)
Theorem malformed_go_leaves_no_search
    (fuel : nat) (line : string) (w : world) (e : pyexc) :
  Py.startswith line "go" = true ->
  go_limits line = inl e ->
  (forall t, move_thread (self w) = Some t ->
     exists n, (n <= fuel)%nat /\ is_alive (rounds n (cancelled w)) t = false) ->
  fst (process_command fuel line w) = Raise e /\
  move_thread (self (snd (process_command fuel line w))) = None /\
  send_queue (self (snd (process_command fuel line w))) = [] /\
  recv_queue (self (snd (process_command fuel line w))) = [] /\
  (forall t, move_thread (self w) = Some t ->
             is_alive (snd (process_command fuel line w)) t = false) /\
  stdout (snd (process_command fuel line w)) = stdout w /\
  length (threads (snd (process_command fuel line w))) = length (threads w).
Proof.
  intros Hline Hl Hjoin. rewrite process_command_go by assumption.
  pose proof (stop_previous_returns fuel w Hjoin) as Hp.
  pose proof (go_branch_silent fuel line w) as [Hout _].
  unfold go_branch, bind in *.
  destruct (stop_previous fuel w) as [o w2] eqn:Hsp. simpl in Hp. subst o.
  unfold clear_queues, bind, modify in *. simpl in *. rewrite Hl in *. simpl in *.
  rewrite !drain_nil.
  apply stop_previous_done in Hsp as [[Hnone ->]|(t' & k & Hm' & Hk & Ha & ->)];
    simpl; repeat split; auto.
  - intros t Ht. congruence.
  - intros t Ht. rewrite Hm' in Ht. injection Ht as <-. exact Ha.
  - apply (drift_length _ _ (rounds_drift k (cancelled w))).
Qed.

(** ** The [position] command *)

(** X12. A [position] line starts from scratch: how it ends and the
    position it leaves depend on the line alone, not on the session, and
    it writes no other field, whether it returns or raises. *)
Theorem position_is_history_free (fuel : nat) (line : string) :
  Py.startswith line "position" = true ->
  exists o p, forall w : world,
    process_command fuel line w = (o, on_self (with_position p) w).
Proof.
  intros Hline.
  assert (Hgen : exists o p, forall w : world,
             position_branch line w = (o, on_self (with_position p) w)).
  { unfold position_branch, bind, modify, index, attr, chess_call, ret, raise.
    destruct (Py.split line !! 1%nat) as [a1|] eqn:E1; simpl.
    - set (base := if negb (String.eqb a1 "startpos")
                   then if String.eqb a1 "fen"
                        then Py.join (Py.slice (Py.split line) 2 8)
                        else "startpos"%string
                   else "startpos"%string).
      destruct (board_of_fen base) as [b|] eqn:Eb.
      + destruct ((8 <? length (Py.split line))%nat
                  && token_is (Py.split line) 8 "moves") eqn:Em.
        * destruct (push_all b (drop 9 (Py.split line))) as [b'|] eqn:Ep.
          -- exists (Done tt), (fen b'). intros w. subst base.
             destruct (negb (String.eqb a1 "startpos")); [destruct (String.eqb a1 "fen")|];
               simpl; rewrite Eb; simpl; rewrite Ep; reflexivity.
          -- exists (Raise ChessError), base. intros w. subst base.
             destruct (negb (String.eqb a1 "startpos")); [destruct (String.eqb a1 "fen")|];
               simpl; rewrite Eb; simpl; rewrite Ep; reflexivity.
        * exists (Done tt), (fen b). intros w. subst base.
          destruct (negb (String.eqb a1 "startpos")); [destruct (String.eqb a1 "fen")|];
            simpl; rewrite Eb; reflexivity.
      + exists (Raise ChessError), base. intros w. subst base.
        destruct (negb (String.eqb a1 "startpos")); [destruct (String.eqb a1 "fen")|];
          simpl; rewrite Eb; reflexivity.
    - exists (Raise IndexError), "startpos"%string. intros w. reflexivity. }
  destruct Hgen as (o & p0 & H). exists o, p0. intros w.
  rewrite process_command_position by assumption. apply H.
Qed.

(** X13. The FEN form works as the comment of the branch says: on a line
    [position fen f1 ... f6 moves m1 ... mk] the board is built from the
    six fields, the moves are pushed in order, and the descriptor of the
    board reached is stored; without [moves] the descriptor of the board
    of the six fields is stored. *)
Theorem position_fen_replays_moves
    (fuel : nat) (w : world) (fs ms : list string) (b b' : Board) :
  length fs = 6%nat ->
  Forall (fun m => Py.split m = [m]) (fs ++ ms) ->
  board_of_fen (Py.join fs) = Some b ->
  push_all b ms = Some b' ->
  process_command fuel
    (Py.join ("position" :: "fen" :: fs ++ "moves" :: ms)%string) w
    = (Done tt, on_self (with_position (fen b')) w) /\
  process_command fuel (Py.join ("position" :: "fen" :: fs)%string) w
    = (Done tt, on_self (with_position (fen b)) w).
Proof.
  intros Hlen Hall Hb Hp.
  apply Forall_app in Hall as [Hfs Hms].
  destruct fs as [|f1 [|f2 [|f3 [|f4 [|f5 [|f6 [|? ?]]]]]]]; try discriminate.
  split.
  - rewrite process_command_position by reflexivity.
    unfold position_branch. rewrite split_join; [|discriminate|].
    + unfold bind, modify, index, attr, chess_call. simpl.
      change (Py.join (Py.slice _ 2 8)) with (Py.join [f1; f2; f3; f4; f5; f6]).
      rewrite Hb. simpl. rewrite drop_0, Hp. reflexivity.
    + repeat (apply Forall_cons; split; [reflexivity|]).
      apply Forall_app. split; [exact Hfs|].
      apply Forall_cons. split; [reflexivity|exact Hms].
  - rewrite process_command_position by reflexivity.
    unfold position_branch. rewrite split_join; [|discriminate|].
    + unfold bind, modify, index, attr, chess_call. simpl.
      change (Py.join (Py.slice _ 2 8)) with (Py.join [f1; f2; f3; f4; f5; f6]).
      rewrite Hb. reflexivity.
    + repeat (apply Forall_cons; split; [reflexivity|]). exact Hfs.
Qed.

(** X14. Only the word [fen] in second place selects a descriptor: with
    any other word there, the line is treated as [position startpos]
    with the same remaining tokens. *)
Theorem position_other_word_is_startpos
    (fuel : nat) (w : world) (word : string) (rest : list string) :
  Py.split word = [word] ->
  Forall (fun m => Py.split m = [m]) rest ->
  word <> "fen"%string ->
  process_command fuel (Py.join ("position" :: word :: rest)%string) w
    = process_command fuel (Py.join ("position" :: "startpos" :: rest)%string) w.
Proof.
  intros Hword Hrest Hne.
  assert (Hs : forall x, Py.split x = [x] ->
             Py.split (Py.join ("position" :: x :: rest)%string)
             = ("position" :: x :: rest)%string).
  { intros x Hx. apply split_join; [discriminate|].
    repeat (apply Forall_cons; split; auto). }
  assert (Hstart : forall x, Py.startswith (Py.join ("position" :: x :: rest)%string)
                               "position" = true).
  { intros x. unfold Py.startswith, Py.join. simpl.
    first [reflexivity|apply prefix_empty]. }
  rewrite !process_command_position by apply Hstart.
  unfold position_branch. rewrite (Hs word Hword), (Hs "startpos"%string eq_refl).
  unfold bind, modify, index, attr. simpl.
  destruct (String.eqb_spec word "fen"); [contradiction|].
  destruct (negb (String.eqb word "startpos")); reflexivity.
Qed.

(** ** Commands matched by their first letters *)

(** X15. [stop], [quit], [ucinewgame] and [setoption] are recognised by
    their first letters alone: whatever follows them, [stop] does what
    [stop] does, [quit] raises [SystemExit] at once and leaves the world,
    a running search included, as it is, [ucinewgame] writes the position
    [startpos] and nothing else, and [setoption] does nothing. *)
Theorem commands_matched_by_prefix (fuel : nat) (tail : string) (w : world) :
  process_command fuel ("stop" ++ tail)%string w = process_command fuel "stop" w /\
  process_command fuel ("quit" ++ tail)%string w = (Raise SystemExit, w) /\
  process_command fuel ("ucinewgame" ++ tail)%string w
    = (Done tt, on_self (with_position "startpos") w) /\
  process_command fuel ("setoption" ++ tail)%string w = (Done tt, w).
Proof.
  split; [|split; [|split]].
  - rewrite !process_command_stop; [reflexivity|reflexivity|].
    unfold Py.startswith. simpl. apply prefix_empty.
  - unfold process_command, Py.startswith. simpl.
    now rewrite prefix_empty.
  - unfold process_command, Py.startswith. simpl.
    now rewrite prefix_empty.
  - unfold process_command, Py.startswith. simpl.
    now rewrite prefix_empty.
Qed.

(** ** [read] *)

Lemma blank_lstrip (s : string) : blank s = true -> Py.lstrip s = EmptyString.
Proof.
  induction s as [|c s IH]; simpl; [reflexivity|].
  intros H. apply andb_true_iff in H as [Hc Hs]. rewrite Hc. now apply IH.
Qed.

Lemma rstrip_idempotent (s : string) : Py.rstrip (Py.rstrip s) = Py.rstrip s.
Proof.
  induction s as [|c s IH]; simpl; [reflexivity|].
  destruct (Py.rstrip s) as [|c' r] eqn:E.
  - destruct (Py.is_space c) eqn:Hc; simpl; [reflexivity|]. now rewrite Hc.
  - change (Py.rstrip (String c (String c' r)))
      with (match Py.rstrip (String c' r) with
            | EmptyString => if Py.is_space c then EmptyString else String c EmptyString
            | r0 => String c r0
            end).
    now rewrite IH.
Qed.

Lemma lstrip_head (s : string) :
  Py.lstrip s = EmptyString \/
  exists c r, Py.lstrip s = String c r /\ Py.is_space c = false.
Proof.
  induction s as [|c s IH]; simpl; [now left|].
  destruct (Py.is_space c) eqn:Hc; [exact IH|].
  right. now exists c, s.
Qed.

Lemma strip_idempotent (s : string) : Py.strip (Py.strip s) = Py.strip s.
Proof.
  unfold Py.strip.
  assert (H : Py.lstrip (Py.rstrip (Py.lstrip s)) = Py.rstrip (Py.lstrip s)).
  { destruct (lstrip_head s) as [->|(c & r & -> & Hc)]; [reflexivity|].
    simpl. destruct (Py.rstrip r); [rewrite Hc|]; simpl; now rewrite Hc. }
  rewrite H. apply rstrip_idempotent.
Qed.

(** X16. [read] ignores an empty line and a line of white space: the
    command it returns is the empty text and the world is untouched.  In
    general the white space around a command does not count: reading a
    line and reading the stripped line is the same. *)
Theorem read_ignores_surrounding_space (fuel : nat) (line : string) (w : world) :
  (blank line = true -> read fuel line w = (Done EmptyString, w)) /\
  read fuel (Py.strip line) w = read fuel line w.
Proof.
  split.
  - intros H. unfold read, Py.strip. rewrite (blank_lstrip _ H). reflexivity.
  - unfold read. now rewrite strip_idempotent.
Qed.

(** ** Two polls in a row *)

(** X17. A poll that leaves the result queue empty has nothing left to
    report: the next poll, with no step of a worker in between, answers
    [False], prints nothing and changes nothing. *)
Theorem second_poll_reports_nothing (fuel fuel' : nat) (w : world) :
  recv_queue (self (snd (check_best_move fuel w))) = [] ->
  check_best_move fuel' (snd (check_best_move fuel w))
    = (Done false, snd (check_best_move fuel w)).
Proof.
  assert (Hnone : forall w1 : world,
             move_thread (self w1) = None -> recv_queue (self w1) = [] ->
             check_best_move fuel' w1 = (Done false, w1)).
  { intros w1 Hm Hq. unfold check_best_move, bind, attr. simpl. rewrite Hm.
    now apply take_result_cases. }
  assert (Htake : forall w1 : world,
             move_thread (self w1) = None ->
             move_thread (self (snd (take_result w1))) = None).
  { intros w1 Hm.
    pose proof (pres_take_result
                  (fun w w' => move_thread (self w') = move_thread (self w))) as H.
    rewrite H; auto. congruence. }
  unfold check_best_move at 1 3 4, bind, attr. simpl.
  destruct (move_thread (self w)) as [t|] eqn:Hm.
  - destruct (is_alive w t) eqn:Ha.
    + intros _. unfold check_best_move, bind, attr. simpl. now rewrite Hm, Ha.
    + rewrite join_finished by assumption. unfold modify. simpl.
      intros Hq. apply Hnone; [|exact Hq]. now apply Htake.
  - intros Hq. apply Hnone; [|exact Hq]. now apply Htake.
Qed.

(** ** The handshake and the search *)

Lemma set_frame_printing text t f w :
  set_frame t f (printing text w) = printing text (set_frame t f w).
Proof.
  unfold set_frame, printing. simpl. now destruct (threads w !! t).
Qed.

Lemma step_thread_printing text t w :
  step_thread t (printing text w) = printing text (step_thread t w).
Proof.
  unfold step_thread. simpl.
  destruct (threads w !! t) as [th|]; [|reflexivity].
  destruct (t_frame th) as [f|]; [|reflexivity].
  destruct (resume f) as [k|v f'|f'|].
  - destruct (send_queue (self w)) as [|m q].
    + apply (set_frame_printing text).
    + exact (set_frame_printing text t _ (on_self (with_send_queue q) w)).
  - exact (set_frame_printing text t _
             (on_self (with_recv_queue (recv_queue (self w) ++ [v])) w)).
  - apply (set_frame_printing text).
  - apply (set_frame_printing text).
Qed.

(** X18. [uci] prints the three lines of the identity, in this order, and
    [isready] prints [readyok]; both do so in any state and touch nothing
    else, so that they commute with the steps of a running search: the
    answer is the same and the search goes on as if nothing had been
    asked. *)
Theorem handshake_does_not_disturb_search (fuel : nat) (t : nat) (w : world) :
  process_command fuel "uci" w
    = (Done tt,
       mkWorld (self w) (threads w)
         (((stdout w ++ [("id name " ++ engine_name (self w))%string])
             ++ [("id author " ++ author (self w))%string]) ++ ["uciok"%string])) /\
  process_command fuel "isready" w
    = (Done tt, mkWorld (self w) (threads w) (stdout w ++ ["readyok"%string])) /\
  exec (exec w (Tick t)) (Command fuel "uci")
    = exec (exec w (Command fuel "uci")) (Tick t) /\
  exec (exec w (Tick t)) (Command fuel "isready")
    = exec (exec w (Command fuel "isready")) (Tick t).
Proof.
  split; [reflexivity|]. split; [reflexivity|].
  destruct (effects_speaks) as [_ _ Hstep _ _ _ _ _ _ _ _ _ _ _ _ _].
  destruct (Hstep t w) as [Ha He _ _ _].
  split.
  - change (exec w (Command fuel "uci"))
      with (printing "uciok"
              (printing ("id author " ++ author (self w))
                 (printing ("id name " ++ engine_name (self w)) w))).
    simpl exec at 3. rewrite !step_thread_printing.
    change (exec (exec w (Tick t)) (Command fuel "uci"))
      with (printing "uciok"
              (printing ("id author " ++ author (self (step_thread t w)))
                 (printing ("id name " ++ engine_name (self (step_thread t w)))
                    (step_thread t w)))).
    now rewrite Ha, He.
  - change (exec w (Command fuel "isready")) with (printing "readyok" w).
    simpl exec at 3. now rewrite step_thread_printing.
Qed.

(** ** The loop of the example program *)

Lemma serve_stops (fuel : nat) (pre rest : list input) (w : world) (log : list string) :
  fst (fst (serve fuel pre w log)) <> EndOfInput ->
  serve fuel (pre ++ rest) w log = serve fuel pre w log.
Proof.
  revert w log. induction pre as [|[s ts|t] pre IH]; intros w log H; simpl in *.
  - contradiction.
  - destruct (read fuel s w) as [[c|e|] w1]; [|reflexivity|reflexivity].
    destruct (check_best_move fuel (run (map Tick ts) w1)) as [[b|e|] w2];
      [|reflexivity|reflexivity].
    now apply IH.
  - now apply IH.
Qed.

Lemma read_returns_stripped fuel s w c w1 :
  read fuel s w = (Done c, w1) -> c = Py.strip s.
Proof.
  unfold read, bind, ret.
  destruct (process_command fuel (Py.strip s) w) as [[[]|e|] w']; intros [= <- _];
    reflexivity.
Qed.

(** X19. The log of the example program holds, after what it held
    before, the stripped text of the lines read so far, in order and
    without a gap: a line is logged only once its command has returned,
    and when the program reaches the end of the input every line has been
    logged.  This is so however the search threads are scheduled. *)
Theorem log_records_processed_lines
    (fuel : nat) (ins : list input) (w : world) (log : list string) :
  exists k,
    snd (serve fuel ins w log)
      = log ++ map Py.strip (take k (lines_of ins)) /\
    (fst (fst (serve fuel ins w log)) = EndOfInput ->
     snd (serve fuel ins w log) = log ++ map Py.strip (lines_of ins)) /\
    snd (finish fuel (serve fuel ins w log)) = snd (serve fuel ins w log).
Proof.
  assert (Hfin : forall r, snd (finish fuel r) = snd r).
  { intros [[[|e|] w'] log']; simpl; [| |reflexivity];
      now destruct (shutdown fuel w') as [[[]|e'|] w'']. }
  revert w log. induction ins as [|[s ts|t] ins IH]; intros w log.
  - exists 0%nat. rewrite Hfin. simpl. now rewrite app_nil_r.
  - rewrite Hfin. simpl. destruct (read fuel s w) as [[c|e|] w1] eqn:Hr.
    + apply read_returns_stripped in Hr as ->.
      destruct (check_best_move fuel (run (map Tick ts) w1)) as [[b|e|] w2].
      * destruct (IH w2 (log ++ [Py.strip s])) as (k & Hk & Hend & _).
        exists (S k). simpl. rewrite <- !app_assoc in *. simpl in *. auto.
      * exists 1%nat. simpl. rewrite ?take_0.
        split; [reflexivity|]. split; [discriminate|reflexivity].
      * exists 1%nat. simpl. rewrite ?take_0.
        split; [reflexivity|]. split; [discriminate|reflexivity].
    + exists 0%nat. simpl. rewrite app_nil_r.
      split; [reflexivity|]. split; [discriminate|reflexivity].
    + exists 0%nat. simpl. rewrite app_nil_r.
      split; [reflexivity|]. split; [discriminate|reflexivity].
  - destruct (IH (step_thread t w) log) as (k & Hk & Hend & _).
    exists k. rewrite Hfin. simpl. auto.
Qed.

(** *** Shutdown *)

Lemma existsb_running (w : world) :
  existsb running (threads w) = false <-> no_worker w.
Proof.
  unfold no_worker, is_alive. split.
  - intros H t. destruct (threads w !! t) as [th|] eqn:E; [|reflexivity].
    destruct (running th) eqn:R; [|reflexivity].
    assert (Hex : existsb running (threads w) = true).
    { apply existsb_exists. exists th. split; [|exact R].
      apply list_elem_of_In. eapply list_elem_of_lookup_2, E. }
    congruence.
  - intros H. destruct (existsb running (threads w)) eqn:Hex; [|reflexivity].
    apply existsb_exists in Hex as (th & Hin & R).
    apply list_elem_of_In, list_elem_of_lookup_1 in Hin as [t E].
    specialize (H t). rewrite E in H. congruence.
Qed.

Lemma shutdown_done fuel w : no_worker w -> shutdown fuel w = (Done tt, w).
Proof.
  intros H. apply existsb_running in H. destruct fuel; simpl; now rewrite H.
Qed.

(** The shutdown lasts as long as a thread runs. *)
Lemma shutdown_waits fuel w t :
  is_alive (rounds fuel w) t = true -> fst (shutdown fuel w) = Hang.
Proof.
  revert w. induction fuel as [|fuel IH]; intros w Ha.
  - simpl in *. destruct (existsb running (threads w)) eqn:Hex; [reflexivity|].
    apply existsb_running in Hex. rewrite Hex in Ha. discriminate.
  - assert (Hw : is_alive w t = true)
      by exact (drift_alive _ _ (rounds_drift (S fuel) w) t Ha).
    simpl. destruct (existsb running (threads w)) eqn:Hex.
    + apply IH. exact Ha.
    + apply existsb_running in Hex. rewrite Hex in Hw. discriminate.
Qed.

(** During the shutdown only the threads move. *)
Lemma shutdown_rounds fuel w :
  exists k, (k <= fuel)%nat /\ snd (shutdown fuel w) = rounds k w.
Proof.
  revert w. induction fuel as [|fuel IH]; intros w; simpl.
  - exists 0%nat. split; [lia|]. now destruct (existsb running (threads w)).
  - destruct (existsb running (threads w)).
    + destruct (IH (yield w)) as (k & Hk & Hs). exists (S k). split; [lia|exact Hs].
    + exists 0%nat. split; [lia|reflexivity].
Qed.

(** X20. [quit] leaves the loop on the spot and stops nothing: the line is
    not logged, the state is left as it is (no token is put, the search is
    not joined), and no later input is processed.  The program then ends
    at once if no search thread runs; while one runs the process stays,
    since the thread is no daemon, and from then on only the threads
    move. *)
Theorem quit_waits_for_running_search
    (fuel : nat) (q : string) (ts : list nat) (pre rest : list input)
    (w : world) (log : list string) :
  Py.startswith (Py.strip q) "quit" = true ->
  serve fuel (Line q ts :: rest) w log = (Ended SystemExit, w, log) /\
  serve fuel (pre ++ Line q ts :: rest) w log
    = serve fuel (pre ++ [Line q ts]) w log /\
  fst (fst (serve fuel (pre ++ Line q ts :: rest) w log)) <> EndOfInput /\
  (no_worker w ->
     finish fuel (serve fuel (Line q ts :: rest) w log) = (Ended SystemExit, w, log)) /\
  (forall t, is_alive (rounds fuel w) t = true ->
     fst (fst (finish fuel (serve fuel (Line q ts :: rest) w log))) = Blocked) /\
  (exists k, (k <= fuel)%nat /\
     snd (fst (finish fuel (serve fuel (Line q ts :: rest) w log))) = rounds k w).
Proof.
  intros Hq.
  assert (Hquit : forall rest' w' log',
             serve fuel (Line q ts :: rest') w' log' = (Ended SystemExit, w', log')).
  { intros rest' w' log'. simpl. unfold read, bind.
    unfold Py.startswith in Hq. apply prefix_cons in Hq as (s1 & E & Hq).
    rewrite E.
    apply prefix_cons in Hq as (s2 & -> & Hq).
    apply prefix_cons in Hq as (s3 & -> & Hq).
    apply prefix_cons in Hq as (s4 & -> & Hq).
    unfold process_command, Py.startswith. simpl. now rewrite prefix_empty. }
  split; [apply Hquit|].
  assert (Hne : forall l, fst (fst (serve fuel (l ++ [Line q ts]) w log)) <> EndOfInput).
  { intros l. revert w log. induction l as [|[s ts'|t] l IH]; intros w' log'.
    - simpl app. rewrite Hquit. discriminate.
    - simpl. destruct (read fuel s w') as [[c|e|] w1]; [|discriminate|discriminate].
      destruct (check_best_move fuel (run (map Tick ts') w1)) as [[b|e|] w2];
        [|discriminate|discriminate].
      apply IH.
    - simpl. apply IH. }
  assert (Heq : serve fuel (pre ++ Line q ts :: rest) w log
                = serve fuel (pre ++ [Line q ts]) w log).
  { change (Line q ts :: rest) with ([Line q ts] ++ rest). rewrite app_assoc.
    apply serve_stops, Hne. }
  split; [exact Heq|]. split; [rewrite Heq; apply Hne|].
  rewrite Hquit. unfold finish. split; [|split].
  - intros Hn. now rewrite shutdown_done.
  - intros t Ha. apply shutdown_waits in Ha.
    destruct (shutdown fuel w) as [o w']. simpl in Ha. now subst o.
  - destruct (shutdown_rounds fuel w) as (k & Hk & Hs).
    exists k. split; [exact Hk|].
    destruct (shutdown fuel w) as [[[]|e|] w']; exact Hs.
Qed.

Lemma ticks_app (ts : list nat) (evs : list event) (w : world) :
  run (map Tick ts ++ evs) w = run evs (run (map Tick ts) w).
Proof. apply foldl_app. Qed.

Lemma serve_is_a_session (fuel : nat) (ins : list input) (w : world) (log : list string) :
  exists evs, snd (fst (serve fuel ins w log)) = run evs w.
Proof.
  revert w log. induction ins as [|[s ts|t] ins IH]; intros w log; simpl.
  - now exists [].
  - assert (Hread : snd (read fuel s w) = exec w (Command fuel (Py.strip s))).
    { unfold read, bind, ret. simpl.
      now destruct (process_command fuel (Py.strip s) w) as [[[]|e|] w']. }
    destruct (read fuel s w) as [[c|e|] w1]; simpl in Hread.
    + set (w1' := run (map Tick ts) w1).
      assert (Hpoll : snd (check_best_move fuel w1') = exec w1' (CheckBestMove fuel))
        by reflexivity.
      assert (Hrun : forall evs,
                 run (Command fuel (Py.strip s) :: map Tick ts
                        ++ CheckBestMove fuel :: evs) w
                 = run evs (snd (check_best_move fuel w1'))).
      { intros evs.
        change (run (map Tick ts ++ CheckBestMove fuel :: evs)
                  (snd (process_command fuel (Py.strip s) w))
                = run evs (snd (check_best_move fuel w1'))).
        rewrite <- Hread, ticks_app. reflexivity. }
      destruct (check_best_move fuel w1') as [[b|e|] w2]; simpl fst; simpl snd.
      * destruct (IH w2 (log ++ [c])) as [evs Hevs].
        exists (Command fuel (Py.strip s) :: map Tick ts ++ CheckBestMove fuel :: evs).
        now rewrite Hrun.
      * exists (Command fuel (Py.strip s) :: map Tick ts ++ [CheckBestMove fuel]).
        now rewrite Hrun.
      * exists (Command fuel (Py.strip s) :: map Tick ts ++ [CheckBestMove fuel]).
        now rewrite Hrun.
    + now exists [Command fuel (Py.strip s)].
    + now exists [Command fuel (Py.strip s)].
  - destruct (IH (step_thread t w) log) as [evs ->]. now exists (Tick t :: evs).
Qed.

Lemma rounds_is_a_session (n : nat) (w : world) :
  exists ts, rounds n w = run (map Tick ts) w.
Proof.
  revert w. induction n as [|n IH]; intros w; simpl.
  - now exists [].
  - destruct (IH (yield w)) as [ts ->].
    assert (Hy : forall l w', foldl (fun w t => step_thread t w) w' l
                              = run (map Tick l) w').
    { induction l as [|t l IHl]; intros w'; simpl; [reflexivity|apply IHl]. }
    exists (seq 0 (length (threads w)) ++ ts).
    rewrite map_app, ticks_app. unfold yield. now rewrite Hy.
Qed.

Lemma main_is_a_session (fuel : nat) (ins : list input) (log : list string) :
  exists evs,
    snd (fst (main fuel ins log))
      = run evs (printing banner (boot default_author default_engine_name)).
Proof.
  unfold main.
  set (w0 := printing banner (boot default_author default_engine_name)).
  destruct (serve_is_a_session fuel ins w0 log) as [evs Hevs].
  destruct (serve fuel ins w0 log) as [[e w] log']. simpl in Hevs. subst w.
  destruct (shutdown_rounds fuel (run evs w0)) as (k & _ & Hs).
  destruct (rounds_is_a_session k (run evs w0)) as [ts Hts].
  assert (Hshut : snd (shutdown fuel (run evs w0)) = run (evs ++ map Tick ts) w0).
  { rewrite Hs, Hts. unfold run. now rewrite foldl_app. }
  unfold finish.
  destruct e as [|e|]; [| |now exists evs];
    destruct (shutdown fuel (run evs w0)) as [[[]|e'|] w']; simpl in *;
    exists (evs ++ map Tick ts); exact Hshut.
Qed.

(** X21. Whatever is typed at the example program, however the search
    threads are scheduled and however the program ends, its output is the
    banner followed by lines of the protocol only, and at most one search
    thread is running. *)
Theorem example_program_output
    (fuel : nat) (ins : list input) (log : list string) :
  (exists new,
     stdout (snd (fst (main fuel ins log))) = banner :: new /\
     Forall (fun l => protocol_line (UCI_init default_author default_engine_name) l
                      = true) new) /\
  (alive_count (snd (fst (main fuel ins log))) <= 1)%nat.
Proof.
  destruct (main_is_a_session fuel ins log) as [evs ->].
  set (w0 := printing banner (boot default_author default_engine_name)).
  split.
  - destruct (effects_run speaks evs w0 effects_speaks)
      as [_ _ _ _ (new & Hout & Hall)].
    exists new. split; [exact Hout|exact Hall].
  - apply owned_alive_count, run_owned. intros t. discriminate.
Qed.

End Sessions.

(** ** The example engine under the interface *)

Section Stopping.
Context {chess : Chess} {task : SearchTask}.

(** The [stop] branch when the search delivers and returns: the one line
    is printed and the handle stays. *)
Lemma stop_branch_reports (fuel : nat) (w : world) (t n m : nat)
    (v : pyval) (q : list pyval) (l : string) :
  move_thread (self w) = Some t ->
  recv_queue (self (rounds n (cancelled w))) = v :: q ->
  is_alive (rounds m (cancelled w)) t = false ->
  bestmove_line v = Some l ->
  (n <= fuel)%nat -> (m <= fuel)%nat ->
  exists w',
    stop_branch fuel w = (Done tt, w') /\
    stdout w' = stdout w ++ [l] /\
    best_move (self w') = Some v /\
    is_alive w' t = false.
Proof.
  intros Hm Hrecv Hover Hl Hn Hmf.
  set (wc := cancelled w) in *.
  destruct (wait_result_complete n fuel wc) as (k & Hk & Hw & Hne);
    [rewrite Hrecv; discriminate|lia|].
  destruct (rounds_recv_mono k n wc Hk) as [more Hmore].
  rewrite Hrecv in Hmore.
  destruct (recv_queue (self (rounds k wc))) as [|v' q'] eqn:Ek; [contradiction|].
  simpl in Hmore. injection Hmore as <- _.
  set (w4 := on_self (with_best_move (Some v))
               (on_self (with_recv_queue q') (rounds k wc))).
  assert (Hbehind : behind [v] w4 (rounds k wc)).
  { split; [split; reflexivity|]. simpl. exact Ek. }
  assert (Hover4 : is_alive (rounds m w4) t = false).
  { rewrite (same_workers_alive _ _ _ (proj1 (rounds_behind _ m _ _ Hbehind))).
    rewrite <- rounds_add. apply (rounds_alive_mono m); [lia|exact Hover]. }
  destruct (join_complete m fuel t w4 Hover4 Hmf) as (k' & Hk' & Hj & Ha).
  pose proof (rounds_drift k wc) as Dk.
  pose proof (rounds_drift k' w4) as Dk'.
  assert (Hmt : move_thread (self (rounds k wc)) = Some t).
  { rewrite (drift_move_thread _ _ Dk). exact Hm. }
  exists (mkWorld (self (rounds k' w4)) (threads (rounds k' w4))
                  (stdout (rounds k' w4) ++ [l])).
  repeat split.
  - unfold stop_branch, bind, send_queue_put, modify, attr, recv_queue_get.
    change (on_self _ w) with wc. rewrite Hw. simpl. rewrite Ek. simpl.
    rewrite Hmt. fold w4. rewrite Hj. apply report_line, Hl.
  - simpl. rewrite (drift_stdout _ _ Dk'). simpl.
    now rewrite (drift_stdout _ _ Dk).
  - simpl. now rewrite (drift_best_move _ _ Dk').
  - exact Ha.
Qed.

Lemma run_app (evs1 evs2 : list event) (w : world) :
  run (evs1 ++ evs2) w = run evs2 (run evs1 w).
Proof. apply foldl_app. Qed.

End Stopping.

Section Engine.
Context {chess : Chess} {host : ExampleEngine.Host}.
Import ExampleEngine EngineSession.

(** The move that [random.choice] returns on a list that is not empty. *)
Lemma choice_exists (mvs : list Move) :
  mvs <> [] ->
  exists m, mvs !! (draw mod length mvs)%nat = Some m /\ In m mvs.
Proof.
  intros Hne.
  assert (Hlt : (draw mod length mvs < length mvs)%nat).
  { apply Nat.mod_upper_bound. now destruct mvs. }
  apply lookup_lt_is_Some in Hlt as [m Hm].
  exists m. split; [exact Hm|].
  apply list_elem_of_In. eapply list_elem_of_lookup_2, Hm.
Qed.

Lemma yield_one_search u lim mvs ph :
  yield (one_search u lim mvs ph) = step_thread 0 (one_search u lim mvs ph).
Proof. reflexivity. Qed.

Lemma step_in_loop_empty u lim mvs n :
  (seconds n <? fst lim) = true -> send_queue u = [] ->
  step_thread 0 (one_search u lim mvs (Some (Waiting n)))
    = one_search u lim mvs (Some (Waiting (S n))).
Proof.
  intros Hlt Hq. unfold step_thread, one_search. simpl.
  unfold next. simpl. rewrite Hlt, Hq. reflexivity.
Qed.

Lemma step_in_loop_stop u lim mvs n q :
  (seconds n <? fst lim) = true -> send_queue u = PStr "stop" :: q ->
  step_thread 0 (one_search u lim mvs (Some (Waiting n)))
    = one_search (with_send_queue q u) lim mvs (Some Choosing).
Proof.
  intros Hlt Hq. unfold step_thread, one_search. simpl.
  unfold next. simpl. rewrite Hlt, Hq. reflexivity.
Qed.

Lemma step_time_is_up u lim mvs m n :
  mvs !! (draw mod length mvs)%nat = Some m ->
  (seconds n <? fst lim) = false ->
  step_thread 0 (one_search u lim mvs (Some (Waiting n)))
    = one_search (with_recv_queue (recv_queue u ++ [PStr (move_str m)]) u)
        lim mvs (Some Leaving).
Proof.
  intros Hm Hlt. unfold step_thread, one_search. simpl.
  unfold next, choose. simpl. rewrite Hlt, Hm. reflexivity.
Qed.

Lemma step_choosing u lim mvs m :
  mvs !! (draw mod length mvs)%nat = Some m ->
  step_thread 0 (one_search u lim mvs (Some Choosing))
    = one_search (with_recv_queue (recv_queue u ++ [PStr (move_str m)]) u)
        lim mvs (Some Leaving).
Proof.
  intros Hm. unfold step_thread, one_search. simpl.
  unfold next, choose. simpl. rewrite Hm. reflexivity.
Qed.

Lemma step_leaving u lim mvs :
  step_thread 0 (one_search u lim mvs (Some Leaving)) = one_search u lim mvs None.
Proof. reflexivity. Qed.

Lemma step_returned u lim mvs t :
  step_thread t (one_search u lim mvs None) = one_search u lim mvs None.
Proof.
  apply step_thread_finished. unfold is_alive, one_search. simpl.
  destruct t as [|t]; [reflexivity|]. now destruct t.
Qed.

Lemma step_other_thread u lim mvs ph t :
  t <> 0%nat -> step_thread t (one_search u lim mvs ph) = one_search u lim mvs ph.
Proof.
  intros Ht. apply step_thread_finished. unfold is_alive, one_search. simpl.
  destruct t as [|t]; [contradiction|]. now destruct t.
Qed.

(** A first [go] in a new session. *)
Lemma first_go a e fuel line lim :
  Py.startswith line "go" = true -> go_limits line = inr lim ->
  exec (boot a e) (Command fuel line) = in_loop a e lim (legal_moves new_board) 0.
Proof.
  intros Hline Hl. simpl. rewrite process_command_go by assumption.
  unfold go_branch, bind, stop_previous, clear_queues, bind, attr, modify. simpl.
  rewrite Hl. destruct lim as [tl md]. reflexivity.
Qed.

Lemma rounds_one_search n u lim mvs ph :
  rounds (S n) (one_search u lim mvs ph)
    = rounds n (step_thread 0 (one_search u lim mvs ph)).
Proof. reflexivity. Qed.

Lemma ticks_returned u lim mvs ts :
  run (map Tick ts) (one_search u lim mvs None) = one_search u lim mvs None.
Proof.
  induction ts as [|t ts IH]; [reflexivity|].
  change (run (map Tick (t :: ts)) (one_search u lim mvs None))
    with (run (map Tick ts) (step_thread t (one_search u lim mvs None))).
  now rewrite step_returned.
Qed.

Lemma ticks_leaving u lim mvs ts :
  run (map Tick ts) (one_search u lim mvs (Some Leaving))
    = one_search u lim mvs (if turns 0 ts is O then Some Leaving else None).
Proof.
  induction ts as [|t ts IH]; [reflexivity|].
  change (run (map Tick (t :: ts)) (one_search u lim mvs (Some Leaving)))
    with (run (map Tick ts) (step_thread t (one_search u lim mvs (Some Leaving)))).
  unfold turns in *. destruct (decide (t = 0%nat)) as [->|Ht].
  - rewrite step_leaving, ticks_returned, count_occ_cons_eq by reflexivity.
    reflexivity.
  - rewrite step_other_thread, IH, count_occ_cons_neq by assumption.
    reflexivity.
Qed.

Lemma poll_while_alive fuel u lim mvs ph :
  move_thread u = Some 0%nat ->
  check_best_move fuel (one_search u lim mvs (Some ph))
    = (Done false, one_search u lim mvs (Some ph)).
Proof.
  intros H. unfold check_best_move, bind, attr. simpl. rewrite H. reflexivity.
Qed.

Lemma poll_when_returned fuel a e lim mvs s :
  check_best_move fuel (returned a e lim mvs (PStr s))
    = (Done true,
       mkWorld (mkUCI (Some (PStr s)) "startpos" 0 [] [] 0 a e None)
               (threads (returned a e lim mvs (PStr s)))
               [("bestmove " ++ s)%string]).
Proof.
  unfold check_best_move, bind, attr. simpl.
  rewrite join_finished by reflexivity. reflexivity.
Qed.

(** *** One search that has a move to choose

    [mvs] are the legal moves of the search and [m] is the one at the
    index that the generator draws. *)
Section Chosen.
Variables (a e : string) (lim : Z * Z) (mvs : list Move) (m : Move).
Hypothesis Hm : mvs !! (draw mod length mvs)%nat = Some m.

(** A step of any thread takes the search from one stage to a stage. *)
Lemma step_search_state t w :
  search_state a e lim mvs (PStr (move_str m)) w ->
  search_state a e lim mvs (PStr (move_str m)) (step_thread t w).
Proof.
  intros H. destruct (decide (t = 0%nat)) as [->|Ht].
  - destruct H as [[n ->]|[->| ->]].
    + unfold in_loop. destruct (seconds n <? fst lim) eqn:Hlt.
      * rewrite step_in_loop_empty by auto. left. now exists (S n).
      * rewrite (step_time_is_up _ _ _ m) by auto. right. now left.
    + unfold leaving. rewrite step_leaving. right. now right.
    + unfold returned. rewrite step_returned. right. now right.
  - destruct H as [[n ->]|[->| ->]];
      unfold in_loop, leaving, returned; rewrite step_other_thread by assumption.
    + left. now exists n.
    + right. now left.
    + right. now right.
Qed.

Lemma ticks_search_state ts w :
  search_state a e lim mvs (PStr (move_str m)) w ->
  search_state a e lim mvs (PStr (move_str m)) (run (map Tick ts) w).
Proof.
  revert w. induction ts as [|t ts IH]; intros w H; simpl; [exact H|].
  apply IH, step_search_state, H.
Qed.

(** From each stage, two rounds after the token the move is on the result
    queue and three rounds after it the thread is over. *)
Lemma search_state_answers w :
  search_state a e lim mvs (PStr (move_str m)) w ->
  move_thread (self w) = Some 0%nat /\ stdout w = [] /\
  recv_queue (self (rounds 2 (cancelled w))) = [PStr (move_str m)] /\
  is_alive (rounds 3 (cancelled w)) 0 = false.
Proof.
  intros [[n ->]|[->| ->]].
  - change (cancelled (in_loop a e lim mvs n))
      with (one_search (interface a e [PStr "stop"] []) lim mvs (Some (Waiting n))).
    split; [reflexivity|]. split; [reflexivity|].
    destruct (seconds n <? fst lim) eqn:Hlt.
    + rewrite !rounds_one_search.
      rewrite (step_in_loop_stop (interface a e [PStr "stop"] []) lim mvs
                 n [] Hlt eq_refl).
      rewrite !rounds_one_search, (step_choosing _ _ _ m Hm).
      split; [reflexivity|].
      rewrite rounds_one_search, step_leaving. reflexivity.
    + rewrite !rounds_one_search.
      rewrite (step_time_is_up _ _ _ m _ Hm Hlt).
      rewrite !rounds_one_search, step_leaving. split; [reflexivity|].
      rewrite rounds_one_search, step_returned. reflexivity.
  - change (cancelled (leaving a e lim mvs (PStr (move_str m))))
      with (one_search (interface a e [PStr "stop"] [PStr (move_str m)]) lim
              mvs (Some Leaving)).
    split; [reflexivity|]. split; [reflexivity|].
    rewrite !rounds_one_search, step_leaving.
    rewrite !rounds_one_search, step_returned.
    split; [reflexivity|].
    rewrite rounds_one_search, step_returned. reflexivity.
  - change (cancelled (returned a e lim mvs (PStr (move_str m))))
      with (one_search (interface a e [PStr "stop"] [PStr (move_str m)]) lim
              mvs None).
    split; [reflexivity|]. split; [reflexivity|].
    rewrite !rounds_one_search, step_returned.
    rewrite !rounds_one_search, step_returned.
    split; [reflexivity|].
    rewrite rounds_one_search, step_returned. reflexivity.
Qed.

(** The stage of the search after the steps [ts], by what its thread has
    read on the clock: the thread is in the loop as long as every reading
    was below the limit, and it has returned two turns after a reading
    that was not. *)
Lemma ticks_in_loop ts : forall n0,
  ((forall i, (n0 <= i < n0 + turns 0 ts)%nat -> seconds i < fst lim) ->
     run (map Tick ts) (in_loop a e lim mvs n0)
       = in_loop a e lim mvs (n0 + turns 0 ts)) /\
  (forall n, (n0 <= n)%nat -> fst lim <= seconds n ->
     (n + 2 <= n0 + turns 0 ts)%nat ->
     run (map Tick ts) (in_loop a e lim mvs n0)
       = returned a e lim mvs (PStr (move_str m))).
Proof.
  induction ts as [|t ts IH]; intros n0.
  - simpl. split.
    + intros _. now rewrite Nat.add_0_r.
    + intros n H1 _ H2. lia.
  - change (run (map Tick (t :: ts)) (in_loop a e lim mvs n0))
      with (run (map Tick ts) (step_thread t (in_loop a e lim mvs n0))).
    unfold turns in *. destruct (decide (t = 0%nat)) as [->|Ht].
    + rewrite count_occ_cons_eq by reflexivity.
      destruct (seconds n0 <? fst lim) eqn:Hlt.
      * assert (Hs : step_thread 0 (in_loop a e lim mvs n0)
                     = in_loop a e lim mvs (S n0))
          by (apply step_in_loop_empty; auto).
        rewrite Hs. apply Z.ltb_lt in Hlt.
        destruct (IH (S n0)) as (H1 & H2). split.
        -- intros H. rewrite H1 by (intros i Hi; apply H; lia).
           unfold in_loop. do 3 f_equal. lia.
        -- intros n Hn Hup Hturns. apply (H2 n); [|exact Hup|lia].
           destruct (decide (n = n0)) as [->|Hne]; lia.
      * assert (Hs : step_thread 0 (in_loop a e lim mvs n0)
                     = one_search (interface a e [] [PStr (move_str m)]) lim
                         mvs (Some Leaving))
          by exact (step_time_is_up (interface a e [] []) lim mvs m n0 Hm Hlt).
        rewrite Hs. apply Z.ltb_ge in Hlt. rewrite ticks_leaving. unfold turns.
        split.
        -- intros H. specialize (H n0 ltac:(lia)). lia.
        -- intros n Hn Hup Hturns.
           destruct (count_occ Nat.eq_dec ts 0%nat) eqn:E; [lia|reflexivity].
    + rewrite count_occ_cons_neq by assumption.
      assert (Hs : step_thread t (in_loop a e lim mvs n0)
                   = in_loop a e lim mvs n0)
        by (apply step_other_thread; assumption).
      rewrite Hs. apply IH.
Qed.

End Chosen.

Lemma session_search_state a e f0 line lim ts m :
  Py.startswith line "go" = true ->
  go_limits line = inr lim ->
  legal_moves new_board !! (draw mod length (legal_moves new_board))%nat = Some m ->
  search_state a e lim (legal_moves new_board) (PStr (move_str m))
    (run (Command f0 line :: map Tick ts) (boot a e)).
Proof.
  intros Hline Hl Hm.
  change (run (Command f0 line :: map Tick ts) (boot a e))
    with (run (map Tick ts) (exec (boot a e) (Command f0 line))).
  rewrite (first_go a e f0 line lim Hline Hl).
  apply ticks_search_state; [exact Hm|]. left. now exists 0%nat.
Qed.

(** X22. The example engine keeps its side of the contract under the
    interface, whatever the clock shows and whatever the generator draws.
    In a new session, after any [go] line with well-formed flags and any
    number of steps of any threads, [stop] returns (three units of fuel
    are enough) and the output is exactly one line, [bestmove] with a
    legal move of the starting position, the one at the index drawn; that
    move is stored and the search thread is over. *)
Theorem example_engine_answers_stop
    (a e : string) (f0 fuel : nat) (line : string) (lim : Z * Z) (ts : list nat) :
  Py.startswith line "go" = true ->
  go_limits line = inr lim ->
  legal_moves new_board <> [] ->
  (3 <= fuel)%nat ->
  fst (process_command fuel "stop" (run (Command f0 line :: map Tick ts) (boot a e)))
    = Done tt /\
  (exists mv, In mv (legal_moves new_board) /\
     legal_moves new_board !! (draw mod length (legal_moves new_board))%nat = Some mv /\
     stdout (run (Command f0 line :: map Tick ts ++ [Command fuel "stop"]) (boot a e))
       = [("bestmove " ++ move_str mv)%string] /\
     best_move (self (run (Command f0 line :: map Tick ts ++ [Command fuel "stop"])
                          (boot a e)))
       = Some (PStr (move_str mv))) /\
  is_alive (run (Command f0 line :: map Tick ts ++ [Command fuel "stop"]) (boot a e)) 0
    = false.
Proof.
  intros Hline Hl Hmoves Hfuel.
  destruct (choice_exists _ Hmoves) as (m & Hm & Hin).
  change (Command f0 line :: map Tick ts ++ [Command fuel "stop"])
    with ((Command f0 line :: map Tick ts) ++ [Command fuel "stop"]).
  rewrite run_app.
  pose proof (session_search_state a e f0 line lim ts m Hline Hl Hm) as Hw.
  set (w := run (Command f0 line :: map Tick ts) (boot a e)) in *.
  destruct (search_state_answers _ _ _ _ _ Hm _ Hw) as (Hh & Hout & Hq & Ha).
  destruct (stop_branch_reports fuel w 0 2 3 (PStr (move_str m)) []
              ("bestmove " ++ move_str m) Hh Hq Ha eq_refl
              ltac:(lia) ltac:(lia))
    as (w' & Hstop & Hout' & Hbest & Halive).
  change (run [Command fuel "stop"] w) with (snd (process_command fuel "stop" w)).
  rewrite process_command_stop by reflexivity. rewrite Hstop. simpl.
  split; [reflexivity|]. split; [|exact Halive].
  exists m. rewrite Hout', Hout. auto.
Qed.

(** X23. Polling the example engine.  In a new session, after a [go] line
    with well-formed flags and any steps of the threads, a poll answers
    [False] and changes nothing as long as the search thread is alive,
    also when its move is already on the result queue; once the thread is
    over, the poll answers [True], prints the one [bestmove] line with a
    legal move, stores the move and clears the handle.  With no [stop],
    the search ends by the clock alone: its thread is alive as long as
    every reading of the clock it has taken was below the time limit, and
    it is over two turns after a reading that was not. *)
Theorem example_engine_poll
    (a e : string) (f0 fuel : nat) (line : string) (lim : Z * Z) (ts : list nat) :
  Py.startswith line "go" = true ->
  go_limits line = inr lim ->
  legal_moves new_board <> [] ->
  let w := run (Command f0 line :: map Tick ts) (boot a e) in
  (is_alive w 0 = true -> check_best_move fuel w = (Done false, w)) /\
  (is_alive w 0 = false ->
     fst (check_best_move fuel w) = Done true /\
     move_thread (self (snd (check_best_move fuel w))) = None /\
     exists mv, In mv (legal_moves new_board) /\
       stdout (snd (check_best_move fuel w)) = [("bestmove " ++ move_str mv)%string] /\
       best_move (self (snd (check_best_move fuel w))) = Some (PStr (move_str mv))) /\
  ((forall i, (i < turns 0 ts)%nat -> seconds i < fst lim) -> is_alive w 0 = true) /\
  (forall n, fst lim <= seconds n -> (n + 2 <= turns 0 ts)%nat ->
     is_alive w 0 = false).
Proof.
  intros Hline Hl Hmoves w.
  destruct (choice_exists _ Hmoves) as (m & Hm & Hin).
  pose proof (session_search_state a e f0 line lim ts m Hline Hl Hm) as Hw.
  fold w in Hw.
  assert (Hw0 : w = run (map Tick ts) (in_loop a e lim (legal_moves new_board) 0)).
  { unfold w. change (run (Command f0 line :: map Tick ts) (boot a e))
      with (run (map Tick ts) (exec (boot a e) (Command f0 line))).
    now rewrite (first_go a e f0 line lim Hline Hl). }
  destruct (ticks_in_loop a e lim _ m Hm ts 0) as (H1 & H2).
  rewrite <- Hw0 in H1, H2.
  split; [|split; [|split]].
  - intros Ha. destruct Hw as [[n Hw]|[Hw|Hw]]; rewrite Hw in Ha |- *.
    + apply poll_while_alive. reflexivity.
    + apply poll_while_alive. reflexivity.
    + discriminate Ha.
  - intros Ha. destruct Hw as [[n Hw]|[Hw|Hw]]; rewrite Hw in Ha |- *;
      try discriminate Ha.
    rewrite poll_when_returned. split; [reflexivity|]. split; [reflexivity|].
    exists m. split; [exact Hin|]. now split.
  - intros Hbelow. rewrite H1; [reflexivity|]. intros i Hi. apply Hbelow. lia.
  - intros n Hup Hturns. rewrite (H2 n); [reflexivity|lia|exact Hup|lia].
Qed.

End Engine.

(** ** Results that cannot be printed, searches that cannot answer *)

Section Results.
Context {chess : Chess} {task : SearchTask}.

Lemma wait_result_ready fuel w v q :
  recv_queue (self w) = v :: q -> wait_result fuel w = (Done tt, w).
Proof. intros H. destruct fuel; simpl; now rewrite H. Qed.

(** X24. A poll takes the result off the queue and stores it before it
    prints it.  When the result is neither text nor a sequence of two
    texts, nothing is printed and the result is gone all the same: for an
    object of another type the poll answers [True]; for a sequence that is
    too short or holds something else than text it raises [IndexError] or
    [TypeError]. *)
Theorem poll_consumes_result_before_printing
    (fuel : nat) (w : world) (v : pyval) (q : list pyval) :
  recv_queue (self w) = v :: q ->
  (forall t, move_thread (self w) = Some t -> is_alive w t = false) ->
  bestmove_line v = None ->
  snd (check_best_move fuel w)
    = mkWorld (with_best_move (Some v)
                 (with_recv_queue q (with_move_thread None (self w))))
              (threads w) (stdout w) /\
  (v = PObj -> fst (check_best_move fuel w) = Done true) /\
  (forall items, v = PSeq items ->
     fst (check_best_move fuel w) = Raise IndexError \/
     fst (check_best_move fuel w) = Raise TypeError).
Proof.
  intros Hq Hover Hline.
  assert (Hc : check_best_move fuel w
               = take_result (on_self (with_move_thread None) w)).
  { unfold check_best_move, bind, attr. simpl.
    destruct (move_thread (self w)) as [t|] eqn:Hm.
    - rewrite (Hover t eq_refl), join_finished by (apply Hover; reflexivity).
      reflexivity.
    - now rewrite clear_handle_none. }
  rewrite Hc. unfold take_result, bind, attr, recv_queue_get, modify. simpl.
  rewrite Hq. simpl. rewrite Hq.
  destruct v as [m|items|]; [discriminate| |].
  - destruct items as [|[m|its|] [|[p|its'|] rest]]; try discriminate;
      simpl; (split; [reflexivity|]); (split; [discriminate|]); auto.
  - simpl. split; [reflexivity|]. split; [reflexivity|]. discriminate.
Qed.

(** X25. [stop] needs the handle: when [self.move_thread] is [None] and a
    result is waiting, the result is taken and stored, and then the call
    raises [AttributeError] on the join; nothing is printed and the token
    stays on the control queue. *)
Theorem stop_without_handle_raises
    (fuel : nat) (line : string) (w : world) (v : pyval) (q : list pyval) :
  Py.startswith line "stop" = true ->
  move_thread (self w) = None ->
  recv_queue (self w) = v :: q ->
  process_command fuel line w
    = (Raise AttributeError,
       mkWorld (with_best_move (Some v)
                  (with_recv_queue q
                     (with_send_queue (send_queue (self w) ++ [PStr "stop"]) (self w))))
               (threads w) (stdout w)).
Proof.
  intros Hline Hm Hq. rewrite process_command_stop by assumption.
  unfold stop_branch, bind, send_queue_put, modify. fold (cancelled w).
  rewrite (wait_result_ready fuel (cancelled w) v q) by exact Hq.
  unfold recv_queue_get, attr. simpl. rewrite Hq. simpl. rewrite Hm. reflexivity.
Qed.

End Results.

Section Barren.
Context {chess : Chess} {host : ExampleEngine.Host}.
Import ExampleEngine EngineSession.









End Barren.

(** ** The properties of this part on sessions of the example engine *)

Import EngineSession.

(** After three [go] commands the handle names the third thread. *)
Lemma session_handle_is_last_thread_witness :
  move_thread (self Demo.restarted) = Some 2%nat /\
  3%nat = length (threads Demo.restarted) /\
  is_Some (threads Demo.restarted !! 2%nat).
Proof.
  split; [reflexivity|].
  apply (session_handle_is_last_thread default_author default_engine_name
           [Command 0 "go infinite"; Tick 0; Command 3 "go infinite"; Tick 1;
            Command 3 "go depth 2"] 2).
  reflexivity.
Defined.

(** A [go] line after a position was set from a descriptor. *)
Lemma position_only_set_by_position_commands_witness :
  position (self (exec Demo.placed (Command 3 "go movetime 0")))
    = position (self Demo.placed).
Proof.
  apply (position_only_set_by_position_commands Demo.placed (Command 3 "go movetime 0")).
  intros fuel line H. injection H as _ <-. split; reflexivity.
Defined.

(** A [go] line that raises prints nothing. *)
Lemma other_commands_print_nothing_witness :
  fst (process_command 0 "go depth" Demo.start) = Raise IndexError /\
  stdout (snd (process_command 0 "go depth" Demo.start)) = stdout Demo.start.
Proof.
  split; [vm_compute; reflexivity|].
  apply (other_commands_print_nothing 0 "go depth" Demo.start);
    [discriminate|discriminate|reflexivity].
Defined.

Lemma stop_and_poll_print_at_most_one_line_witness :
  at_most_one_line Demo.started (snd (process_command 2 "stop" Demo.started)) /\
  at_most_one_line Demo.started (snd (check_best_move 2 Demo.started)).
Proof.
  apply (stop_and_poll_print_at_most_one_line 2 "stop" Demo.started).
  reflexivity.
Defined.

(** The time controls of a game in front of [movetime]. *)
Lemma go_skips_other_options_witness :
  go_limits (Py.join ["go"; "wtime"; "300000"; "btime"; "300000"; "movetime"; "5"]%string)
    = go_limits (Py.join ["go"; "movetime"; "5"]%string) /\
  go_limits (Py.join ["go"; "movetime"; "5"]%string) = inr (5, 0).
Proof.
  split; [|vm_compute; reflexivity].
  apply (go_skips_other_options ["wtime"; "300000"; "btime"; "300000"]%string
           ["movetime"; "5"]%string).
  - repeat constructor.
  - reflexivity.
Defined.

Lemma go_later_flag_overrides_witness :
  go_limits "go depth 3 infinite" = inr (999999999, 3) /\
  go_limits "go depth 3 movetime 7" = inr (7, 3) /\
  go_limits "go depth 3 depth 9" = inr (0, 9).
Proof.
  destruct (go_later_flag_overrides ["depth"; "3"]%string (0, 3)
              ltac:(repeat constructor) eq_refl) as [H1 H2].
  split; [exact H1|].
  split; [exact (proj1 (H2 "7"%string 7 eq_refl eq_refl))
         |exact (proj2 (H2 "9"%string 9 eq_refl eq_refl))].
Defined.

Lemma go_flag_without_value_fails_witness :
  (exists e, go_limits "go infinite depth" = inl e) /\
  go_limits "go infinite depth" = inl IndexError.
Proof.
  destruct (go_flag_without_value_fails ["infinite"%string] "depth"
              ltac:(repeat constructor) (or_intror eq_refl)) as [H1 H2].
  split; [exact H1|exact (H2 (999999999, 0) eq_refl)].
Defined.

(** [go depth] while [go infinite] is searching: the search is stopped and
    joined, and then the line raises. *)
Lemma malformed_go_leaves_no_search_witness :
  is_alive Demo.searching 0 = true /\
  fst (process_command 3 "go depth" Demo.searching) = Raise IndexError /\
  move_thread (self (snd (process_command 3 "go depth" Demo.searching))) = None /\
  is_alive (snd (process_command 3 "go depth" Demo.searching)) 0 = false /\
  length (threads (snd (process_command 3 "go depth" Demo.searching))) = 1%nat.
Proof.
  split; [reflexivity|].
  assert (Hjoin : forall t, move_thread (self Demo.searching) = Some t ->
            exists n, (n <= 3)%nat /\
                      is_alive (rounds n (cancelled Demo.searching)) t = false).
  { intros t Ht. vm_compute in Ht. injection Ht as <-.
    exists 3%nat. split; [lia|vm_compute; reflexivity]. }
  destruct (malformed_go_leaves_no_search 3 "go depth" Demo.searching IndexError
              eq_refl eq_refl Hjoin) as (H1 & H2 & _ & _ & H5 & _ & H7).
  split; [exact H1|]. split; [exact H2|]. split; [apply H5; reflexivity|].
  rewrite H7. reflexivity.
Defined.

Lemma position_is_history_free_witness :
  exists o p, forall w : world,
    process_command 0 Demo.bad_moves_line w = (o, on_self (with_position p) w).
Proof.
  apply (position_is_history_free 0 Demo.bad_moves_line). reflexivity.
Defined.

(** The starting position by its descriptor, and two moves. *)
Lemma position_fen_replays_moves_witness :
  position (self (snd (process_command 0
    (Py.join ["position"; "fen"; "rnbqkbnr/pppppppp/8/8/8/8/PPPPPPPP/RNBQKBNR";
              "w"; "KQkq"; "-"; "0"; "1"; "moves"; "e2e4"; "e7e5"]%string)
    Demo.start)))
    = (Stub.starting_fen ++ " moves e2e4 e7e5")%string.
Proof.
  destruct (position_fen_replays_moves 0 Demo.start
              ["rnbqkbnr/pppppppp/8/8/8/8/PPPPPPPP/RNBQKBNR"; "w"; "KQkq"; "-";
               "0"; "1"]%string
              ["e2e4"; "e7e5"]%string
              ((Stub.starting_fen, @nil string) : @Board Stub.chess)
              ((Stub.starting_fen, ["e2e4"; "e7e5"]%string) : @Board Stub.chess)
              eq_refl ltac:(repeat constructor) eq_refl eq_refl) as [H _].
  exact (f_equal (fun r => position (self (snd r))) H).
Defined.

Lemma position_other_word_is_startpos_witness :
  process_command 0 (Py.join ["position"; "current"; "moves"; "e2e4"]%string) Demo.placed
    = process_command 0 (Py.join ["position"; "startpos"; "moves"; "e2e4"]%string)
        Demo.placed.
Proof.
  apply (position_other_word_is_startpos 0 Demo.placed "current"
           ["moves"; "e2e4"]%string).
  - reflexivity.
  - repeat constructor.
  - discriminate.
Defined.

(** A line of two spaces. *)
Lemma read_ignores_surrounding_space_witness :
  read 0 "  " Demo.start = (Done EmptyString, Demo.start).
Proof.
  apply (proj1 (read_ignores_surrounding_space 0 "  " Demo.start)).
  reflexivity.
Defined.

(** A poll that reports the finished search, and the poll after it. *)
Lemma second_poll_reports_nothing_witness :
  fst (check_best_move 2 Demo.finished) = Done true /\
  check_best_move 2 (snd (check_best_move 2 Demo.finished))
    = (Done false, snd (check_best_move 2 Demo.finished)).
Proof.
  split; [vm_compute; reflexivity|].
  apply (second_poll_reports_nothing 2 2 Demo.finished).
  vm_compute. reflexivity.
Defined.

Lemma log_records_processed_lines_witness :
  snd (serve 3 [Line "uci" []; Work 0; Line " isready " [0%nat]] Demo.start [])
    = ["uci"; "isready"]%string.
Proof.
  destruct (log_records_processed_lines 3
              [Line "uci" []; Work 0; Line " isready " [0%nat]]
              Demo.start []) as (k & _ & H & _).
  rewrite H; [reflexivity|]. vm_compute. reflexivity.
Defined.

(** [quit] in a new session ends the program; [quit] while [go infinite]
    searches leaves the loop and the process stays. *)
Lemma quit_waits_for_running_search_witness :
  finish 5 (serve 5 [Line "quit" []; Line "isready" []] Demo.start [])
    = (Ended SystemExit, Demo.start, []) /\
  fst (fst (finish 5 (serve 5 [Line "quit" []] Demo.searching []))) = Blocked.
Proof.
  assert (Hn : no_worker Demo.start) by (intros t; vm_compute; reflexivity).
  assert (Ha : is_alive (rounds 5 Demo.searching) 0 = true)
    by (vm_compute; reflexivity).
  split.
  - destruct (quit_waits_for_running_search 5 "quit" [] [] [Line "isready" []]
                Demo.start [] eq_refl) as (_ & _ & _ & H & _).
    exact (H Hn).
  - destruct (quit_waits_for_running_search 5 "quit" [] [] [] Demo.searching []
                eq_refl) as (_ & _ & _ & _ & H & _).
    exact (H 0%nat Ha).
Defined.

(** The program on [go movetime 0], [stop], [quit], when the search has
    run before the first poll: the poll prints the move, [stop] then
    finds neither a result nor a running search and blocks, and [quit] is
    never read. *)
Example program_blocks_in_stop :
  fst (fst (main 3 [Line "go movetime 0" [0; 0]%nat; Line "stop" []; Line "quit" []] []))
    = Blocked /\
  stdout (snd (fst (main 3 [Line "go movetime 0" [0; 0]%nat; Line "stop" [];
                            Line "quit" []] [])))
    = [banner; "bestmove e2e4"%string] /\
  snd (main 3 [Line "go movetime 0" [0; 0]%nat; Line "stop" []; Line "quit" []] [])
    = ["go movetime 0"%string].
Proof.
  split; [vm_compute; reflexivity|]. split; vm_compute; reflexivity.
Qed.

(** [go movetime 5], two turns of the search, a step of a thread that does
    not exist, and [stop]. *)
Lemma example_engine_answers_stop_witness :
  fst (process_command 3 "stop"
         (run (Command 0 "go movetime 5" :: map Tick [0; 0; 1]%nat) Demo.start))
    = Done tt /\
  is_alive (run (Command 0 "go movetime 5" :: map Tick [0; 0; 1]%nat
                   ++ [Command 3 "stop"]) Demo.start) 0 = false.
Proof.
  destruct (example_engine_answers_stop (chess := Stub.chess) default_author default_engine_name 0 3
              "go movetime 5" (5, 0) [0; 0; 1]%nat eq_refl eq_refl
              ltac:(vm_compute; discriminate) ltac:(lia)) as (H1 & _ & H3).
  split; [exact H1|exact H3].
Defined.

(** [go movetime 1] and three turns of the search, on a clock that shows
    one second at the second reading. *)
Lemma example_engine_poll_witness :
  is_alive (run (Command 0 "go movetime 1" :: map Tick [0; 0; 0]%nat) Demo.start) 0
    = false /\
  fst (check_best_move 1
         (run (Command 0 "go movetime 1" :: map Tick [0; 0; 0]%nat) Demo.start))
    = Done true.
Proof.
  pose proof (example_engine_poll (chess := Stub.chess) default_author default_engine_name 0 1
                "go movetime 1" (1, 0) [0; 0; 0]%nat eq_refl eq_refl
                ltac:(vm_compute; discriminate)) as H.
  cbv zeta in H. destruct H as (_ & H2 & _ & H4).
  assert (Hup : 1 <= seconds 1) by (simpl; lia).
  assert (Hturns : (1 + 2 <= turns 0 [0; 0; 0])%nat) by (vm_compute; lia).
  assert (Ha := H4 1%nat Hup Hturns).
  split; [exact Ha|exact (proj1 (H2 Ha))].
Defined.

(** A result that is no move: the poll answers [True] and prints nothing. *)
Lemma poll_consumes_result_before_printing_witness :
  fst (check_best_move 0 (on_self (with_recv_queue [PObj; PStr "e2e4"]) Demo.start))
    = Done true /\
  stdout (snd (check_best_move 0
                 (on_self (with_recv_queue [PObj; PStr "e2e4"]) Demo.start))) = [].
Proof.
  destruct (poll_consumes_result_before_printing 0
              (on_self (with_recv_queue [PObj; PStr "e2e4"]) Demo.start)
              PObj [PStr "e2e4"] eq_refl
              ltac:(intros t Ht; discriminate Ht) eq_refl) as (H1 & H2 & _).
  split; [exact (H2 eq_refl)|]. rewrite H1. reflexivity.
Defined.

Lemma stop_without_handle_raises_witness :
  fst (process_command 0 "stop" (on_self (with_recv_queue [PStr "e2e4"]) Demo.start))
    = Raise AttributeError.
Proof.
  exact (f_equal fst
           (stop_without_handle_raises 0 "stop"
              (on_self (with_recv_queue [PStr "e2e4"]) Demo.start)
              (PStr "e2e4") [] eq_refl eq_refl eq_refl)).
Defined.

